(** * Face-recognition worker and bounded face gallery

    A shallow embedding of [game/recognition/recognition.py] (the worker
    loop [WorkerProcess.run], [RecognitionProcess.execute_task] with its
    pipeline stages, and the [init_recognition] context manager) and of
    [face_recognition_live/database.py] ([FaceDatabase]).  The worker
    imports its [FaceDatabase] from [game.database], which is not among
    the sources: it is taken to be the class of [database.py] with the
    two further methods the worker calls, [add_all] and
    [remove_most_recent].

    Python objects are records, mutation is explicit state passing, and
    an exception is the [Raise] branch of [Outcome].  Everything the
    program receives from outside (the clock, pickle, OpenCV, the model
    stack, the configuration) is a field of the [Externals] class. *)

From Stdlib Require Import ZArith List Lia Sorted.
From stdpp Require Import base gmap strings list sorting.

Open Scope Z_scope.

(** ** Exceptions and the state-and-error monad *)

Inductive Exception :=
| NotImplementedError
| AttributeError
| UnpicklingError
| ModelError (code : nat).

Inductive Outcome (A : Type) :=
| Return (a : A)
| Raise (e : Exception).
Arguments Return {A} a.
Arguments Raise {A} e.

(** A computation over a mutable state [St]: the state survives an
    exception, as the attributes of a Python object do. *)
Definition M (St A : Type) : Type := St -> Outcome A * St.

Definition ret {St A} (a : A) : M St A := fun s => (Return a, s).

Definition raise {St A} (e : Exception) : M St A := fun s => (Raise e, s).

Definition bind {St A B} (m : M St A) (k : A -> M St B) : M St B :=
  fun s => match m s with
           | (Return a, s') => k a s'
           | (Raise e, s') => (Raise e, s')
           end.

Definition get {St} : M St St := fun s => (Return s, s).

Definition modify {St} (f : St -> St) : M St unit := fun s => (Return tt, f s).

Definition lift {St A} (r : Outcome A) : M St A := fun s => (r, s).

Declare Scope py_scope.
Delimit Scope py_scope with py.
Notation "x <~ m ;; k" := (bind m (fun x => k))
  (at level 100, m at next level, right associativity) : py_scope.
Notation "m ;;; k" := (bind m (fun _ => k))
  (at level 100, right associativity) : py_scope.

(** ** Python slices *)

(** [l[i:]]: a negative [i] counts from the end, and an index outside
    the list is clamped. *)
Definition slice_from {A} (i : Z) (l : list A) : list A :=
  if i <? 0
  then drop (Z.to_nat (Z.max 0 (Z.of_nat (length l) + i))) l
  else drop (Z.to_nat i) l.

(** [l[:k]]. *)
Definition slice_to {A} (k : Z) (l : list A) : list A :=
  if k <? 0
  then take (Z.to_nat (Z.max 0 (Z.of_nat (length l) + k))) l
  else take (Z.to_nat k) l.

(** ** Data model *)

(** The value types the program never inspects. *)
Class Carriers := {
  Image : Type;       (* numpy pixel array *)
  Features : Type;    (* embedding vector *)
  Landmarks : Type;
  Bytes : Type;       (* contents of a file *)
}.

Section DataModel.
Context `{Carriers}.

(** [StoredFace = namedtuple("StoredFace", ["timestamp", "features",
    "image"])].  A timestamp is a [datetime], here a number of clock
    units; [features] and [image] hold whatever Python value the caller
    passes, [None] included. *)
Record StoredFace := mkStoredFace {
  timestamp : Z;
  features : option Features;
  image : option Image;
}.

(** dlib rectangle: [box.top()], [box.bottom()], [box.left()],
    [box.right()]. *)
Record BoundingBox := {
  top : Z;
  bottom : Z;
  left : Z;
  right : Z;
}.

(** A candidate returned by the matching capability with its score.
    Scores are only compared with each other; they are taken in a
    totally ordered set of numbers, the integers. *)
Definition Match : Type := StoredFace * Z.

(** [game.recognition.face.Face]: built with a bounding box and a
    thumbnail, the other attributes are set by the pipeline stages.
    [face_crop] and [face_features] are the attributes [crop] and
    [features]. *)
Record Face := mkFace {
  bounding_box : BoundingBox;
  thumbnail : Image;
  landmarks : option Landmarks;
  face_crop : option Image;
  face_features : option Features;
  matches : option (list Match);
}.

End DataModel.

(** ** The model stack and the other externals *)

Section Capabilities.
Context `{Carriers}.

(** The object returned by [init_model_stack()]; every capability may
    raise. *)
Record ModelStack := {
  detect_faces : Image -> Outcome (list BoundingBox);
  find_landmarks : Image -> BoundingBox -> Outcome Landmarks;
  crop : Image -> Landmarks -> Outcome Image;
  extract_features : list (option Image) -> Outcome (list Features);
  match_faces : option Features -> list StoredFace -> Outcome (list Match);
}.

(** One entry per invocation of a capability, in call order. *)
Inductive Call :=
| CallDetect (rgb_image : Image)
| CallLandmarks (box : BoundingBox)
| CallCrop (marks : Landmarks)
| CallExtract (crops : list (option Image))
| CallMatch (probe : option Features).

(** Modelled from the spec: the [match_faces] capability of
    [game.recognition.models], which is not among the sources.  "For
    each Face, compute similarity against every StoredFace currently in
    the gallery" and return the candidates "ordered by descending score"
    with "ties broken by gallery insertion order, earliest first".
    [similarity] is the score the capability computes; [insert_match]
    puts a candidate in front of a ranked run of later ones. *)
Fixpoint insert_match (m : Match) (l : list Match) : list Match :=
  match l with
  | [] => [m]
  | x :: rest =>
      if snd m <? snd x then x :: insert_match m rest else m :: l
  end.

(** Modelled from the spec: the scored gallery, before it is ranked. *)
Definition candidates (similarity : option Features -> option Features -> Z)
    (probe : option Features) (gallery : list StoredFace) : list Match :=
  map (fun sf => (sf, similarity probe (features sf))) gallery.

(** Modelled from the spec: what [match_faces] returns. *)
Definition ranked_matches (similarity : option Features -> option Features -> Z)
    (probe : option Features) (gallery : list StoredFace) : list Match :=
  foldr insert_match [] (candidates similarity probe gallery).

End Capabilities.

Class Externals `{Carriers} := {
  (** [datetime.datetime.now()]: the reading of the [n]-th call. *)
  now : nat -> Z;
  (** [pickle.dumps] / [pickle.loads]. *)
  pickle_dumps : list StoredFace -> Bytes;
  pickle_loads : Bytes -> Outcome (list StoredFace);
  (** [cv2.cvtColor(_, cv2.COLOR_BGR2RGB)]. *)
  cvtColor_BGR2RGB : Image -> Image;
  (** [img[box.top(): box.bottom(), box.left(): box.right(), :]]. *)
  pixels : Image -> Z -> Z -> Z -> Z -> Image;
  (** [game.recognition.models.init_model_stack()]. *)
  init_model_stack : Outcome ModelStack;
  (** [CONFIG["recognition"]["database"]["location"]]. *)
  database_location : string;
  (** [CONFIG["display"]["num_matches_debug"]]. *)
  num_matches_debug : Z;
  (** The picture of a face kept in the gallery, its thumbnail or its
      crop. *)
  review_image : Face -> option Image;
  (** [game.database.FaceDatabase.remove_most_recent] on the sequence:
      the entries removed and the entries kept. *)
  most_recent : list StoredFace -> list StoredFace * list StoredFace;
}.

(** ** The face gallery: [database.py] *)

Section Database.
Context `{Externals}.

(** What lives outside the Python objects: the files, the number of
    clock readings so far, and the log of capability calls. *)
Record World := mkWorld {
  files : gmap string Bytes;
  ticks : nat;
  calls : list Call;
}.

Record FaceDatabase := mkFaceDatabase {
  database_file : string;
  faces : list StoredFace;
}.

(** [FaceDatabase.__init__]. *)
Definition FaceDatabase_init (path : string) (w : World) : Outcome FaceDatabase :=
  match files w !! path with
  | Some content =>
      match pickle_loads content with
      | Return l => Return {| database_file := path; faces := l |}
      | Raise e => Raise e
      end
  | None => Return {| database_file := path; faces := [] |}
  end.

(** [FaceDatabase.add]. *)
Definition add (feats : option Features) (img : option Image)
    (self : FaceDatabase) (w : World) : FaceDatabase * World :=
  let stamp := now (ticks w) in
  ({| database_file := database_file self;
      faces := faces self ++ [mkStoredFace stamp feats img] |},
   {| files := files w; ticks := S (ticks w); calls := calls w |}).

(** [FaceDatabase.store]: only the 1000 newest people are kept. *)
Definition store (self : FaceDatabase) (w : World) : FaceDatabase * World :=
  let kept := slice_from (-1000) (faces self) in
  ({| database_file := database_file self; faces := kept |},
   {| files := <[database_file self := pickle_dumps kept]> (files w);
      ticks := ticks w; calls := calls w |}).

(** Modelled from the spec: [game.database.FaceDatabase.add_all], which
    is not among the sources.  "For each Face in the result, append a
    new StoredFace (current time, that face's features, that face's
    thumbnail/crop) to the gallery and return a RegistrationResult
    listing the newly stored identities."  Each face goes through
    [add]. *)
Fixpoint add_each (fs : list Face) (self : FaceDatabase) (w : World)
    : FaceDatabase * World :=
  match fs with
  | [] => (self, w)
  | f :: rest =>
      let '(self', w') := add (face_features f) (review_image f) self w in
      add_each rest self' w'
  end.

(** Modelled from the spec: the value [add_all] returns is the run of
    entries it appended. *)
Definition add_all (fs : list Face) (self : FaceDatabase) (w : World)
    : list StoredFace * (FaceDatabase * World) :=
  let '(self', w') := add_each fs self w in
  (drop (length (faces self)) (faces self'), (self', w')).

(** [remove_most_recent], also absent from the sources and left open by
    the spec: the split of the sequence is an external. *)
Definition remove_most_recent (self : FaceDatabase)
    : list StoredFace * FaceDatabase :=
  let '(removed, kept) := most_recent (faces self) in
  (removed, {| database_file := database_file self; faces := kept |}).

End Database.

(** ** Tasks and results: [game.events] *)

Section Events.
Context `{Carriers}.

Record RecognitionResult := { result_faces : option (list Face) }.

(** [OtherTask] stands for any task class the dispatcher does not
    know. *)
Inductive Task :=
| RecognizeFaces (image_data : Image)
| BackupFaceDatabase
| RegisterFaces (recognition_result : option RecognitionResult)
| UnregisterMostRecentFaces
| Shutdown
| OtherTask (tag : nat).

Inductive Result :=
| Recognition (r : RecognitionResult)
| RegistrationResult (persons : list StoredFace)
| UnregistrationResult (persons : list StoredFace).

(** The envelope put on the error queue. *)
Inductive ErrorEnvelope := Error.

Definition is_Shutdown (t : Task) : bool :=
  match t with Shutdown => true | _ => false end.

End Events.

(** ** The recognition process: [RecognitionProcess] *)

Section Recognition.
Context `{Externals}.

Record RecognitionProcess := mkRecognitionProcess {
  models : option ModelStack;
  face_database : FaceDatabase;
}.

(** The state [execute_task] runs in: the object and the world. *)
Record Py := mkPy {
  self : RecognitionProcess;
  world : World;
}.

Definition log_call (c : Call) (s : Py) : Py :=
  {| self := self s;
     world := {| files := files (world s); ticks := ticks (world s);
                 calls := calls (world s) ++ [c] |} |}.

(** A capability is invoked: the call is logged, its outcome returned. *)
Definition invoke {A} (c : Call) (r : Outcome A) : M Py A :=
  fun s => (r, log_call c s).

Definition set_models (m : ModelStack) (s : Py) : Py :=
  {| self := {| models := Some m; face_database := face_database (self s) |};
     world := world s |}.

(** [self.models.<capability>]: on [None] the attribute access fails. *)
Definition the_models : M Py ModelStack :=
  fun s => match models (self s) with
           | Some m => (Return m, s)
           | None => (Raise AttributeError, s)
           end.

(** A method of [self.face_database] that cannot raise. *)
Definition on_database {A}
    (f : FaceDatabase -> World -> A * (FaceDatabase * World)) : M Py A :=
  fun s =>
    let '(a, (db, w)) := f (face_database (self s)) (world s) in
    (Return a, {| self := {| models := models (self s); face_database := db |};
                  world := w |}).

(** [RecognitionProcess.__init__]. *)
Definition RecognitionProcess_init (w : World) : Outcome RecognitionProcess :=
  match FaceDatabase_init database_location w with
  | Return db => Return {| models := None; face_database := db |}
  | Raise e => Raise e
  end.

(** [__detect_faces]. *)
Definition __detect_faces (rgb_image bgr_image : Image) : M Py (list Face) :=
  (m <~ the_models ;;
   bounding_boxes <~ invoke (CallDetect rgb_image) (detect_faces m rgb_image) ;;
   let thumbnails :=
     map (fun box => pixels bgr_image (top box) (bottom box) (left box) (right box))
         bounding_boxes in
   ret (map (fun bt => mkFace (fst bt) (snd bt) None None None None)
            (zip bounding_boxes thumbnails)))%py.

(** [_crop]: the loop over the faces, head first. *)
Fixpoint _crop (rgb_image : Image) (fs : list Face) : M Py (list Face) :=
  match fs with
  | [] => ret []
  | face :: rest =>
      (m <~ the_models ;;
       marks <~ invoke (CallLandmarks (bounding_box face))
                       (find_landmarks m rgb_image (bounding_box face)) ;;
       cropped <~ invoke (CallCrop marks) (crop m rgb_image marks) ;;
       rest' <~ _crop rgb_image rest ;;
       ret (mkFace (bounding_box face) (thumbnail face) (Some marks)
                   (Some cropped) (face_features face) (matches face)
            :: rest'))%py
  end.

(** [for face, features in zip(faces, all_features): face.features =
    features]: faces beyond the shorter sequence are left as they are. *)
Fixpoint assign_features (fs : list Face) (all_features : list Features)
    : list Face :=
  match fs, all_features with
  | face :: rest, feats :: more =>
      mkFace (bounding_box face) (thumbnail face) (landmarks face)
             (face_crop face) (Some feats) (matches face)
      :: assign_features rest more
  | _, _ => fs
  end.

(** [_extract_features]: one batched invocation. *)
Definition _extract_features (fs : list Face) : M Py (list Face) :=
  (m <~ the_models ;;
   all_features <~ invoke (CallExtract (map face_crop fs))
                          (extract_features m (map face_crop fs)) ;;
   ret (assign_features fs all_features))%py.

(** [_find_matches]. *)
Fixpoint _find_matches (fs : list Face) : M Py (list Face) :=
  match fs with
  | [] => ret []
  | face :: rest =>
      (m <~ the_models ;;
       s <~ get ;;
       found <~ invoke (CallMatch (face_features face))
                  (match_faces m (face_features face)
                               (faces (face_database (self s)))) ;;
       rest' <~ _find_matches rest ;;
       ret (mkFace (bounding_box face) (thumbnail face) (landmarks face)
                   (face_crop face) (face_features face)
                   (Some (slice_to num_matches_debug found))
            :: rest'))%py
  end.

(** The head of [execute_task]: [if not self.models: self.models =
    init_model_stack()]. *)
Definition load_models : M Py unit :=
  (s <~ get ;;
   match models (self s) with
   | Some _ => ret tt
   | None => m <~ lift init_model_stack ;; modify (set_models m)
   end)%py.

(** The [isinstance] chain of [execute_task].  [None] is the value of a
    branch that falls off the end of the method. *)
Definition dispatch (task : Task) : M Py (option Result) :=
  match task with
  | RecognizeFaces bgr_image =>
      let rgb_image := cvtColor_BGR2RGB bgr_image in
      (fs <~ __detect_faces rgb_image bgr_image ;;
       fs <~ (if (0 <? length fs)%nat
              then fs <~ _crop rgb_image fs ;;
                   fs <~ _extract_features fs ;;
                   _find_matches fs
              else ret fs) ;;
       ret (Some (Recognition {| result_faces := Some fs |})))%py
  | BackupFaceDatabase =>
      (on_database (fun db w => (tt, store db w)) ;;;
       ret None)%py
  | RegisterFaces None => ret (Some (RegistrationResult []))
  | RegisterFaces (Some {| result_faces := None |}) =>
      ret (Some (RegistrationResult []))
  | RegisterFaces (Some {| result_faces := Some fs |}) =>
      (registered <~ on_database (add_all fs) ;;
       ret (Some (RegistrationResult registered)))%py
  | UnregisterMostRecentFaces =>
      (unregistered <~ on_database
         (fun db w => let '(removed, db') := remove_most_recent db in
                      (removed, (db', w))) ;;
       ret (Some (UnregistrationResult unregistered)))%py
  | Shutdown | OtherTask _ => raise NotImplementedError
  end.

(** [RecognitionProcess.execute_task]. *)
Definition RecognitionProcess_execute_task (task : Task) : M Py (option Result) :=
  (load_models ;;; dispatch task)%py.

End Recognition.

(** ** The worker loop: [WorkerProcess] *)

Section Worker.
Context `{Carriers}.

(** The abstract method: a subclass with attributes [St] supplies
    [execute_task].  A result that is [None] is the falsy one of
    [if result:]; result objects are truthy. *)
Class WorkerProcess (St : Type) :=
  execute_task : Task -> M St (option Result).

(** Where the control of [run] is. *)
Inductive Phase :=
| MainLoop             (* the first [while True] *)
| DrainLoop            (* the second one, after [break] *)
| Finished             (* [run] returned *)
| Failed (e : Exception).   (* [run] re-raised [e] *)

(** The three queues, the control point and the attributes of the
    object; [executed] records the tasks handed to [execute_task]. *)
Record Process (St : Type) := mkProcess {
  task_queue : list Task;
  result_queue : list Result;
  error_queue : list ErrorEnvelope;
  phase : Phase;
  executed : list Task;
  attrs : St;
}.
Arguments mkProcess {St}.
Arguments task_queue {St}.
Arguments result_queue {St}.
Arguments error_queue {St}.
Arguments phase {St}.
Arguments executed {St}.
Arguments attrs {St}.

(** [get_task]: [(True, task)] with the task removed from the queue is
    [Some task], [(False, None)] is [None]. *)
Definition get_task (q : list Task) : option Task * list Task :=
  match q with
  | [] => (None, [])
  | task :: rest => (Some task, rest)
  end.

(** [if result: self.result_queue.put(result)]. *)
Definition put_result (result : option Result) (q : list Result) : list Result :=
  match result with
  | Some r => q ++ [r]
  | None => q
  end.

Section Run.
Context {St : Type} `{!WorkerProcess St}.

(** One iteration of the loop [run] is in. *)
Definition step (p : Process St) : Process St :=
  match phase p with
  | MainLoop =>
      match get_task (task_queue p) with
      | (None, _) => p
      | (Some task, q) =>
          if is_Shutdown task
          then mkProcess q (result_queue p) (error_queue p) DrainLoop
                         (executed p) (attrs p)
          else
            match execute_task task (attrs p) with
            | (Return result, st) =>
                mkProcess q (put_result result (result_queue p))
                          (error_queue p) MainLoop (executed p ++ [task]) st
            | (Raise e, st) =>
                mkProcess q (result_queue p) (error_queue p ++ [Error])
                          (Failed e) (executed p ++ [task]) st
            end
      end
  | DrainLoop =>
      match get_task (task_queue p) with
      | (None, _) => mkProcess (task_queue p) (result_queue p) (error_queue p)
                               Finished (executed p) (attrs p)
      | (Some _, q) => mkProcess q (result_queue p) (error_queue p)
                                 DrainLoop (executed p) (attrs p)
      end
  | Finished | Failed _ => p
  end.

(** What happens around the worker: a producer puts a task on the task
    queue, or the worker makes one iteration. *)
Inductive Event :=
| Put (task : Task)
| Iterate.

Definition put_task (task : Task) (p : Process St) : Process St :=
  mkProcess (task_queue p ++ [task]) (result_queue p) (error_queue p)
            (phase p) (executed p) (attrs p).

Definition occur (ev : Event) (p : Process St) : Process St :=
  match ev with
  | Put task => put_task task p
  | Iterate => step p
  end.

Definition run_events (evs : list Event) (p : Process St) : Process St :=
  fold_left (fun acc ev => occur ev acc) evs p.

(** A worker that has just been started, with empty queues. *)
Definition fresh (st : St) : Process St :=
  mkProcess [] [] [] MainLoop [] st.

(** The tasks the producer puts during a run of events. *)
Definition enqueued_by (evs : list Event) : list Task :=
  flat_map (fun ev => match ev with Put task => [task] | Iterate => [] end) evs.

Definition terminated (p : Process St) : bool :=
  match phase p with
  | Finished | Failed _ => true
  | _ => false
  end.

End Run.
End Worker.

Arguments mkProcess {_ St}.
Arguments task_queue {_ St}.
Arguments result_queue {_ St}.
Arguments error_queue {_ St}.
Arguments phase {_ St}.
Arguments executed {_ St}.
Arguments attrs {_ St}.

(** The scenario of four tasks [Task A; Task B; Shutdown; Task C] put
    on the queue of a worker that starts with attributes [st];
    [execute_task] takes [st] to [st1] on A with result [rA], and [st1]
    to [st2] on B with result [rB]. *)
Section Scenario.
Context `{Carriers} {St : Type}.
Variables (st st1 st2 : St) (A B C : Task) (rA rB : option Result).

Definition scenario : list Task := [A; B; Shutdown; C].

(** The worker when it has taken [c] of the four tasks and [q] is still
    queued: in the main loop up to [Shutdown], in the drain loop from
    there on. *)
Definition taken (c : nat) (q : list Task) : Process St :=
  match c with
  | 0%nat => mkProcess q [] [] MainLoop [] st
  | 1%nat => mkProcess q (put_result rA []) [] MainLoop [A] st1
  | 2%nat => mkProcess q (put_result rB (put_result rA [])) [] MainLoop
                       [A; B] st2
  | _ => mkProcess q (put_result rB (put_result rA [])) [] DrainLoop
                   [A; B] st2
  end.

(** The worker when [run] has returned. *)
Definition returned : Process St :=
  mkProcess [] (put_result rB (put_result rA [])) [] Finished [A; B] st2.

(** Where the worker can be when the tasks [puts] have been put. *)
Definition on_track (puts : list Task) (p : Process St) : Prop :=
  (exists c, (c <= length puts)%nat /\ p = taken c (drop c puts)) \/
  ((3 <= length puts)%nat /\ p = returned).

End Scenario.

#[export] Instance RecognitionProcess_worker `{Externals} : WorkerProcess Py :=
  RecognitionProcess_execute_task.

(** ** The context manager: [init_recognition] *)

Section ContextManager.
Context `{Externals}.

(** The side of the caller: the three queues it created and the world. *)
Record System := mkSystem {
  work_queue : list Task;
  results_queue : list Result;
  errors_queue : list ErrorEnvelope;
  system_world : World;
}.

(** [work_queue.put(task)]. *)
Definition put_work (task : Task) : M System unit :=
  modify (fun s => mkSystem (work_queue s ++ [task]) (results_queue s)
                            (errors_queue s) (system_world s)).

(** [try: body finally: handler]. *)
Definition try_finally {St A} (body : M St A) (handler : M St unit) : M St A :=
  fun s =>
    let '(r, s1) := body s in
    match handler s1 with
    | (Return _, s2) => (r, s2)
    | (Raise e, s2) => (Raise e, s2)
    end.

(** [with init_recognition(work_queue, results_queue, error_queue) as
    recognition: block].  [start] is [Process.start] of the standard
    library, [block] the managed block; an exception of the block is
    thrown into the generator at its [yield]. *)
Definition init_recognition
    (start : RecognitionProcess -> M System unit)
    (block : RecognitionProcess -> M System unit) : M System unit :=
  (recognition <~ (fun s => (RecognitionProcess_init (system_world s), s)) ;;
   try_finally (start recognition ;;; block recognition)
               (put_work Shutdown))%py.

End ContextManager.

(** ** Vocabulary of the statements *)

Section Vocabulary.
Context `{Externals}.

(** The model stack [execute_task] works with: the one already loaded,
    or else the one [init_model_stack()] returns. *)
Definition stack_in_use (s : Py) : Outcome ModelStack :=
  match models (self s) with
  | Some m => Return m
  | None => init_model_stack
  end.

(** The calls the alignment stage makes for one bounding box. *)
Definition crop_calls (m : ModelStack) (rgb_image : Image) (box : BoundingBox)
    : list Call :=
  match find_landmarks m rgb_image box with
  | Return marks => [CallLandmarks box; CallCrop marks]
  | Raise _ => [CallLandmarks box]
  end.

(** A box the alignment stage gets through. *)
Definition aligns (m : ModelStack) (rgb_image : Image) (box : BoundingBox)
    : Prop :=
  exists marks cropped,
    find_landmarks m rgb_image box = Return marks /\
    crop m rgb_image marks = Return cropped.

Definition is_later_stage (c : Call) : bool :=
  match c with
  | CallExtract _ | CallMatch _ => true
  | _ => false
  end.

(** Tasks executed one after the other by the same object, up to the
    first exception. *)
Fixpoint execute_all (tasks : list Task) : M Py unit :=
  match tasks with
  | [] => ret tt
  | task :: rest => (execute_task task ;;; execute_all rest)%py
  end.

Definition register (fs : list Face) : Task :=
  RegisterFaces (Some {| result_faces := Some fs |}).

(** The entries [add] creates for a run of faces when the clock has been
    read [n] times. *)
Fixpoint new_entries (n : nat) (fs : list Face) : list StoredFace :=
  match fs with
  | [] => []
  | f :: rest =>
      mkStoredFace (now n) (face_features f) (review_image f)
      :: new_entries (S n) rest
  end.

(** The operations on a gallery; re-opening the file is the start of a
    new worker on the same path (the old object stays when the file
    cannot be read). *)
Inductive GalleryOp :=
| OpAdd (feats : option Features) (img : option Image)
| OpStore
| OpReload.

Definition apply_op (op : GalleryOp) (g : FaceDatabase * World)
    : FaceDatabase * World :=
  match op with
  | OpAdd feats img => add feats img (fst g) (snd g)
  | OpStore => store (fst g) (snd g)
  | OpReload =>
      match FaceDatabase_init (database_file (fst g)) (snd g) with
      | Return db => (db, snd g)
      | Raise _ => g
      end
  end.

Definition apply_ops (ops : list GalleryOp) (g : FaceDatabase * World)
    : FaceDatabase * World :=
  fold_left (fun acc op => apply_op op acc) ops g.

(** Timestamps never decrease along the sequence. *)
Definition chronological (l : list StoredFace) : Prop :=
  Sorted Z.le (map timestamp l).

(** No entry is stamped later than the next reading of the clock. *)
Definition stamped_before (n : nat) (l : list StoredFace) : Prop :=
  Forall (fun sf => timestamp sf <= now n) l.

(** The invariant of a gallery and of the file behind it. *)
Definition gallery_inv (g : FaceDatabase * World) : Prop :=
  chronological (faces (fst g)) /\
  stamped_before (ticks (snd g)) (faces (fst g)) /\
  forall content l,
    files (snd g) !! database_file (fst g) = Some content ->
    pickle_loads content = Return l ->
    chronological l /\ stamped_before (ticks (snd g)) l.

Definition clock_monotone : Prop :=
  forall i j : nat, (i <= j)%nat -> now i <= now j.

Definition pickle_roundtrip : Prop :=
  forall l, pickle_loads (pickle_dumps l) = Return l.

Definition count_Shutdown (q : list Task) : nat :=
  length (filter (fun t => is_Shutdown t = true) q).

(** The scores of a match list never increase. *)
Definition descending (ms : list Match) : Prop :=
  Sorted Z.ge (map snd ms).

(** [a] is ranked before [b]. *)
Definition outranks (a b : Match) : Prop := snd b <= snd a.

(** The properties of a match list cut from the ranking of [gallery]
    for [probe]. *)
Definition top_matches similarity (k : nat) (probe : option Features)
    (gallery : list StoredFace) (ms : list Match) : Prop :=
  length ms = k /\
  descending ms /\
  exists omitted,
    Permutation (ms ++ omitted) (candidates similarity probe gallery) /\
    forall kept out, In kept ms -> In out omitted -> snd out <= snd kept.

(** The claim that a frame survives a landmark failure: the task still
    returns a recognition result, and the later stages are run. *)
Definition failure_isolated (bgr_image : Image) (s : Py) : Prop :=
  exists fs s',
    execute_task (RecognizeFaces bgr_image) s
      = (Return (Some (Recognition {| result_faces := Some fs |})), s') /\
    exists c, In c (calls (world s')) /\ is_later_stage c = true.

End Vocabulary.

(** ** A concrete world *)

(** Images, embeddings and landmarks are numbers, a file holds the
    triples of the entries, the clock counts its own readings.  The
    detector finds no face in image 0, one in image 1, and in any other
    image three, for the middle one of which no landmarks are found. *)
Module Demo.

#[export] Instance carriers : Carriers :=
  {| Image := Z; Features := Z; Landmarks := Z;
     Bytes := list (Z * option Z * option Z) |}.

Definition dumps (l : list StoredFace) : Bytes :=
  map (fun sf => (timestamp sf, features sf, image sf)) l.

Definition loads (b : Bytes) : Outcome (list StoredFace) :=
  Return (map (fun t => mkStoredFace (fst (fst t)) (snd (fst t)) (snd t)) b).

Definition box (n : Z) : BoundingBox :=
  {| top := 0; bottom := 10; left := n; right := n + 10 |}.

Definition distance (a b : option Z) : Z :=
  match a, b with
  | Some x, Some y => - Z.abs (x - y)
  | _, _ => -1000
  end.

Definition stack : ModelStack :=
  {| detect_faces := fun img =>
       Return (if img =? 0 then []
               else if img =? 1 then [box 20]
               else [box 20; box 13; box 40]);
     find_landmarks := fun _ b =>
       if left b =? 13 then Raise (ModelError 1) else Return (left b);
     crop := fun img marks => Return (img + marks);
     extract_features := fun crops => Return (map (default 0) crops);
     match_faces := fun probe gallery =>
       Return (ranked_matches distance probe gallery) |}.

#[export] Instance externals : Externals :=
  {| now := Z.of_nat;
     pickle_dumps := dumps;
     pickle_loads := loads;
     cvtColor_BGR2RGB := fun img => img;
     pixels := fun img t b l r => img + l;
     init_model_stack := Return stack;
     database_location := "faces.pickle";
     num_matches_debug := 2;
     review_image := fun f => Some (thumbnail f);
     most_recent := fun l => (drop (length l - 1) l, take (length l - 1) l) |}.

Definition world0 : World := {| files := ∅; ticks := 0; calls := [] |}.

Definition gallery0 : FaceDatabase :=
  {| database_file := database_location; faces := [] |}.

(** A process as [RecognitionProcess.__init__] leaves it on a first
    run. *)
Definition py0 : Py :=
  {| self := {| models := None; face_database := gallery0 |};
     world := world0 |}.

Definition face (n : Z) : Face :=
  mkFace (box n) n None (Some n) (Some n) None.

Definition entry (t n : Z) : StoredFace := mkStoredFace t (Some n) (Some n).

(** A process with the models loaded and three enrolled faces. *)
Definition py3 : Py :=
  {| self := {| models := Some stack;
                face_database :=
                  {| database_file := database_location;
                     faces := [entry 0 5; entry 1 30; entry 2 12] |} |};
     world := {| files := ∅; ticks := 3; calls := [] |} |}.

(** The block of a [with] statement that puts one frame on the queue and
    then fails. *)
Definition failing_block (_ : RecognitionProcess) : M System unit :=
  (put_work (RecognizeFaces 1) ;;; raise (ModelError 7))%py.

Definition start_ok (_ : RecognitionProcess) : M System unit := ret tt.

Definition system0 : System := mkSystem [] [] [] world0.

End Demo.

(** ** Serving a queue *)

Section Serving.
Context `{Carriers} {St : Type} `{!WorkerProcess St}.

(** What the main loop does with a run of tasks none of which is
    [Shutdown]: each is executed on the attributes the previous one
    left, its result joins the result queue [rq], and the first
    exception ends the run. *)
Fixpoint serve (tasks : list Task) (rq : list Result) : M St (list Result) :=
  match tasks with
  | [] => ret rq
  | task :: rest =>
      (result <~ execute_task task ;; serve rest (put_result result rq))%py
  end.

(** The bookkeeping of the queues against the tasks [puts] handed to
    the worker: executed tasks, then the tasks dropped from [Shutdown]
    on, then the tasks still queued. *)
Definition accounted (puts : list Task) (p : Process St) : Prop :=
  Forall (fun t => is_Shutdown t = false) (executed p) /\
  match phase p with
  | MainLoop | Failed _ => executed p ++ task_queue p = puts
  | DrainLoop | Finished =>
      exists dropped,
        executed p ++ Shutdown :: dropped ++ task_queue p = puts
  end.

(** One result or one error at most for each executed task, and an
    error exactly when [run] has re-raised. *)
Definition settled (p : Process St) : Prop :=
  (length (result_queue p) + length (error_queue p)
   <= length (executed p))%nat /\
  match phase p with
  | Failed _ => error_queue p = [Error]
  | _ => error_queue p = []
  end.

End Serving.

(** ** Computations that leave the object alone *)

Section Quiet.
Context `{Externals}.

(** A computation that, returning or raising, changes nothing but the
    log of capability calls, which it only extends. *)
Definition quiet {A} (c : M Py A) : Prop :=
  forall s r s',
    c s = (r, s') ->
    self s' = self s /\
    files (world s') = files (world s) /\
    ticks (world s') = ticks (world s) /\
    prefix (calls (world s)) (calls (world s')).

(** The face a successful frame builds for a box: the thumbnail cut from
    the BGR image, the landmarks and crop found for the box, the
    embedding the batch returned for it, and the matches kept. *)
Definition recognized (bgr_image : Image) (marks_of : BoundingBox -> Landmarks)
    (crop_of : BoundingBox -> Image) (found_of : option Features -> list Match)
    (box : BoundingBox) (feats : Features) : Face :=
  mkFace box
         (pixels bgr_image (top box) (bottom box) (left box) (right box))
         (Some (marks_of box)) (Some (crop_of box)) (Some feats)
         (Some (slice_to num_matches_debug (found_of (Some feats)))).

(** The object and the world after the capability calls [cs]. *)
Definition log_calls (cs : list Call) (s : Py) : Py :=
  {| self := self s;
     world := {| files := files (world s); ticks := ticks (world s);
                 calls := calls (world s) ++ cs |} |}.

(** The two calls the alignment stage makes for a box whose landmarks
    are [marks_of box]. *)
Definition align_calls (marks_of : BoundingBox -> Landmarks)
    (box : BoundingBox) : list Call :=
  [CallLandmarks box; CallCrop (marks_of box)].

(** The length of [l[:k]] for a list of length [n]. *)
Definition slice_to_length (k : Z) (n : nat) : nat :=
  if k <? 0 then Z.to_nat (Z.max 0 (Z.of_nat n + k))
  else Nat.min (Z.to_nat k) n.

End Quiet.

(** ** More vocabulary for the gallery *)

Section GalleryVocabulary.
Context `{Externals}.

Definition is_add (op : GalleryOp) : bool :=
  match op with OpAdd _ _ => true | _ => false end.

(** The file at [path], when it can be read, holds at most 1000
    entries. *)
Definition file_bounded (path : string) (w : World) : Prop :=
  forall content l,
    files w !! path = Some content ->
    pickle_loads content = Return l ->
    (length l <= 1000)%nat.

End GalleryVocabulary.

(** ** The camera: [peripherals/camera.py] *)

(** What the camera module receives from outside: OpenCV, the clock and
    the configuration.  A channel of an image is the flat sequence of
    its [uint8] values. *)
Class Camera `{Carriers} := {
  (** The object a video source is read from. *)
  Capture : Type;
  (** [cv2.split(cv2.cvtColor(img, cv2.COLOR_BGR2HSV))]. *)
  split_hsv : Image -> list Z * list Z * list Z;
  (** [cv2.cvtColor(cv2.merge((h, s, v)), cv2.COLOR_HSV2BGR)]. *)
  merge_hsv : list Z * list Z * list Z -> Image;
  (** [cv2.flip(image, 1)]. *)
  flip : Image -> Image;
  (** [cv2.cvtColor(image, cv2.COLOR_BGR2RGB)]. *)
  to_rgb : Image -> Image;
  (** [CONFIG["source_settings"]["increase_brightness"]] and
      [CONFIG["source_settings"]["mirror"]]. *)
  brightness : Z;
  mirror : bool;
  (** The three constructors of a video source. *)
  init_jetson_video_capture : Outcome Capture;
  init_video_capture : Outcome Capture;
  init_file_streaming : Outcome Capture;
  (** [datetime.now()] in microseconds: the reading of the [n]-th call. *)
  camera_clock : nat -> Z;
}.

Section CameraModel.
Context `{Camera}.

(** [v[v > lim] = 255] on a [uint8] channel. *)
Definition set_above (lim : Z) (v : list Z) : list Z :=
  map (fun x => if lim <? x then 255 else x) v.

(** [v[v <= lim] += value] on a [uint8] channel: the sum wraps around at
    256. *)
Definition add_upto (lim value : Z) (v : list Z) : list Z :=
  map (fun x => if x <=? lim then (x + value) mod 256 else x) v.

(** [increase_brightness]. *)
Definition increase_brightness (img : Image) (value : Z) : Image :=
  let '(h, s, v) := split_hsv img in
  let lim := 255 - value in
  let v := set_above lim v in
  let v := add_upto lim value v in
  merge_hsv (h, s, v).





(** The captures opened and released so far. *)
Record Streams := mkStreams {
  opened : list Capture;
  released : list Capture;
}.

Definition acquire (init : Outcome Capture) : M Streams Capture :=
  fun s => match init with
           | Return c => (Return c, mkStreams (opened s ++ [c]) (released s))
           | Raise e => (Raise e, s)
           end.

(** [video_capture.release()]. *)
Definition release (c : Capture) : M Streams unit :=
  modify (fun s => mkStreams (opened s) (released s ++ [c])).

(** The [if]/[elif] chain of [open_stream] on [CONFIG["source"]]. *)
Definition capture_for (source : string) : M Streams Capture :=
  if decide (source = "camera_jetson") then acquire init_jetson_video_capture
  else if decide (source = "camera") then acquire init_video_capture
  else if decide (source = "prerecorded") then acquire init_file_streaming
  else raise NotImplementedError.

(** [with open_stream() as video_capture: block]. *)
Definition open_stream {A} (source : string)
    (block : Capture -> M Streams A) : M Streams A :=
  (video_capture <~ capture_for source ;;
   try_finally (block video_capture) (release video_capture))%py.

(** The local variables of [monitor_framerate], the number of clock
    readings made, and the elapsed times reported so far, each as the
    [seconds] and [microseconds] of the [timedelta]. *)
Record Monitor := mkMonitor {
  frame_counter : Z;
  counter_start_time : Z;
  readings : nat;
  reports : list (Z * Z);
}.

(** The two statements before the loop. *)
Definition monitor_start : Monitor :=
  mkMonitor 0 (camera_clock 0) 1 [].

Definition day : Z := 86400 * 1000000.

(** The statements after the [yield], run when the next frame is asked
    for.  [delta.seconds] and [delta.microseconds] leave out the days of
    the [timedelta]; [None] is the [ZeroDivisionError] of the division
    by an elapsed time of zero. *)
Definition after_yield (m : Monitor) : option Monitor :=
  let count := frame_counter m + 1 in
  if count =? 100 then
    let counter_end_time := camera_clock (readings m) in
    let delta := (counter_end_time - counter_start_time m) mod day in
    if delta =? 0 then None
    else Some (mkMonitor 0 (camera_clock (S (readings m)))
                         (S (S (readings m)))
                         (reports m ++ [(delta / 1000000, delta mod 1000000)]))
  else Some (mkMonitor count (counter_start_time m) (readings m) (reports m)).

(** [n] frames yielded and asked past. *)
Fixpoint monitor_frames (n : nat) (m : Monitor) : option Monitor :=
  match n with
  | O => Some m
  | S n' => match after_yield m with
            | Some m' => monitor_frames n' m'
            | None => None
            end
  end.

End CameraModel.

(** ** More concrete worlds *)

(** A world in which nothing can be loaded: no gallery file is
    readable and the model stack does not come up.  And a model stack
    whose feature capability answers with the first embedding only. *)
Module Faulty.
Import Demo.

Definition externals : Externals :=
  {| now := Z.of_nat;
     pickle_dumps := dumps;
     pickle_loads := fun _ => Raise UnpicklingError;
     cvtColor_BGR2RGB := fun img => img;
     pixels := fun img t b l r => img + l;
     init_model_stack := Raise (ModelError 2);
     database_location := "faces.pickle";
     num_matches_debug := 2;
     review_image := fun f => Some (thumbnail f);
     most_recent := fun l => ([], l) |}.

Definition short_stack : ModelStack :=
  {| detect_faces := detect_faces stack;
     find_landmarks := find_landmarks stack;
     crop := crop stack;
     extract_features := fun crops => Return (take 1 (map (default 0) crops));
     match_faces := match_faces stack |}.

(** A system whose gallery file exists. *)
Definition system_with_file : System :=
  mkSystem [] [] [] {| files := {[ "faces.pickle" := [] ]}; ticks := 0;
                       calls := [] |}.

Definition failing_start (_ : RecognitionProcess) : M System unit :=
  raise (ModelError 3).

Definition idle_block (_ : RecognitionProcess) : M System unit := ret tt.

End Faulty.

(** A camera: the V channel of an image is the image number and 250,
    images are merged back to the sum of their V channel, mirroring
    negates, a capture is a number, the clock counts its readings. *)
Module Studio.
Import Demo.

#[export] Instance camera : Camera :=
  {| Capture := nat;
     split_hsv := fun img => ([1], [2], [img; 250]);
     merge_hsv := fun hsv => foldr Z.add 0 (snd hsv);
     flip := fun img => - img;
     to_rgb := fun img => img;
     brightness := 30;
     mirror := true;
     init_jetson_video_capture := Return 1%nat;
     init_video_capture := Return 2%nat;
     init_file_streaming := Raise (ModelError 4);
     camera_clock := Z.of_nat |}.

Definition no_streams : Streams := mkStreams [] [].

(** A block that fails after the capture was handed to it. *)
Definition failing_reader (_ : Capture) : M Streams unit :=
  raise (ModelError 5).

End Studio.

(** * Properties *)

(** ** Slices *)

Section Slices.
Context {A : Type}.

Lemma slice_from_newest (l : list A) :
  slice_from (-1000) l = drop (length l - Nat.min (length l) 1000) l.
Proof.
  unfold slice_from. simpl. f_equal. lia.
Qed.

Lemma slice_from_length (l : list A) :
  length (slice_from (-1000) l) = Nat.min (length l) 1000.
Proof.
  rewrite slice_from_newest, length_drop. lia.
Qed.

Lemma slice_from_short (l : list A) :
  (length l <= 1000)%nat -> slice_from (-1000) l = l.
Proof.
  intros Hlen. rewrite slice_from_newest.
  replace (length l - Nat.min (length l) 1000)%nat with 0%nat by lia.
  reflexivity.
Qed.

Lemma slice_from_suffix (l : list A) :
  exists discarded, l = discarded ++ slice_from (-1000) l.
Proof.
  exists (take (length l - Nat.min (length l) 1000) l).
  rewrite slice_from_newest. symmetry. apply take_drop.
Qed.

Lemma slice_to_take (k : Z) (l : list A) :
  0 <= k -> slice_to k l = take (Z.to_nat k) l.
Proof.
  intros Hk. unfold slice_to.
  destruct (k <? 0) eqn:E; [lia | reflexivity].
Qed.

End Slices.

(** ** The gallery *)

Section GalleryFacts.
Context `{Externals}.

Lemma Sorted_le_snoc (l : list Z) (x : Z) :
  Sorted Z.le l -> Forall (fun y => y <= x) l -> Sorted Z.le (l ++ [x]).
Proof.
  induction l as [|a l IH]; intros Hs Hb; simpl.
  - repeat constructor.
  - inversion Hs as [|? ? Hs' Hhd]; subst.
    inversion Hb as [|? ? Ha Hb']; subst.
    constructor; [auto|].
    destruct l as [|b l]; simpl.
    + constructor. exact Ha.
    + inversion Hhd; subst. constructor. assumption.
Qed.

Lemma chronological_drop (n : nat) (l : list StoredFace) :
  chronological l -> chronological (drop n l).
Proof.
  unfold chronological. revert n.
  induction l as [|a l IH]; intros [|n] Hs; simpl; auto.
  apply IH. inversion Hs; assumption.
Qed.

Lemma stamped_before_mono (i j : nat) (l : list StoredFace) :
  clock_monotone -> (i <= j)%nat -> stamped_before i l -> stamped_before j l.
Proof.
  intros Hmono Hij Hl. unfold stamped_before in *.
  eapply Forall_impl; [exact Hl|].
  intros sf Hsf. simpl in Hsf.
  specialize (Hmono i j Hij). lia.
Qed.

Lemma add_each_spec (fs : list Face) (self : FaceDatabase) (w : World) :
  add_each fs self w
  = ({| database_file := database_file self;
        faces := faces self ++ new_entries (ticks w) fs |},
     {| files := files w; ticks := ticks w + length fs; calls := calls w |}).
Proof.
  revert self w.
  induction fs as [|f rest IH]; intros [path l] [fl t cl]; simpl.
  - rewrite app_nil_r, Nat.add_0_r. reflexivity.
  - rewrite IH. simpl. rewrite <- app_assoc. simpl.
    do 3 f_equal. lia.
Qed.

Lemma new_entries_length (n : nat) (fs : list Face) :
  length (new_entries n fs) = length fs.
Proof.
  revert n. induction fs as [|f rest IH]; intros n; simpl; auto.
Qed.

Lemma add_all_spec (fs : list Face) (self : FaceDatabase) (w : World) :
  add_all fs self w
  = (new_entries (ticks w) fs,
     ({| database_file := database_file self;
         faces := faces self ++ new_entries (ticks w) fs |},
      {| files := files w; ticks := ticks w + length fs; calls := calls w |})).
Proof.
  unfold add_all. rewrite add_each_spec. simpl.
  rewrite drop_app_length. reflexivity.
Qed.

Lemma reload_after_store (self : FaceDatabase) (w : World) :
  pickle_roundtrip ->
  FaceDatabase_init (database_file self) (snd (store self w))
  = Return (fst (store self w)).
Proof.
  intros Hrt. unfold FaceDatabase_init, store. simpl.
  rewrite lookup_insert_eq, Hrt. reflexivity.
Qed.

End GalleryFacts.

(** ** Task execution *)

Section ExecutionFacts.
Context `{Externals}.

Lemma load_models_ok (s : Py) (m : ModelStack) :
  stack_in_use s = Return m -> load_models s = (Return tt, set_models m s).
Proof.
  destruct s as [[ms db] w]. unfold stack_in_use, load_models, bind, get. simpl.
  destruct ms as [m0|]; intros Hm.
  - injection Hm as ->. reflexivity.
  - unfold lift. rewrite Hm. reflexivity.
Qed.

Lemma execute_task_dispatch (task : Task) (s : Py) (m : ModelStack) :
  stack_in_use s = Return m ->
  execute_task task s = dispatch task (set_models m s).
Proof.
  intros Hm.
  unfold execute_task, RecognitionProcess_worker,
    RecognitionProcess_execute_task, bind.
  rewrite (load_models_ok s m Hm). reflexivity.
Qed.

Lemma stack_in_use_loaded (m : ModelStack) (db : FaceDatabase) (w : World) :
  stack_in_use {| self := {| models := Some m; face_database := db |};
                  world := w |} = Return m.
Proof. reflexivity. Qed.

Lemma register_executes (fs : list Face) (s : Py) (m : ModelStack) :
  stack_in_use s = Return m ->
  execute_task (register fs) s
  = (Return (Some (RegistrationResult (new_entries (ticks (world s)) fs))),
     {| self :=
          {| models := Some m;
             face_database :=
               {| database_file := database_file (face_database (self s));
                  faces := faces (face_database (self s))
                           ++ new_entries (ticks (world s)) fs |} |};
        world := {| files := files (world s);
                    ticks := ticks (world s) + length fs;
                    calls := calls (world s) |} |}).
Proof.
  intros Hm. rewrite (execute_task_dispatch _ s m Hm).
  unfold register, dispatch, bind, on_database, set_models. simpl.
  rewrite add_all_spec. reflexivity.
Qed.

Lemma backup_executes (s : Py) (m : ModelStack) :
  stack_in_use s = Return m ->
  execute_task BackupFaceDatabase s
  = (Return None,
     {| self := {| models := Some m;
                   face_database :=
                     fst (store (face_database (self s)) (world s)) |};
        world := snd (store (face_database (self s)) (world s)) |}).
Proof.
  intros Hm. rewrite (execute_task_dispatch _ s m Hm).
  reflexivity.
Qed.

Lemma new_entries_app (n : nat) (fs gs : list Face) :
  new_entries n (fs ++ gs)
  = new_entries n fs ++ new_entries (n + length fs) gs.
Proof.
  revert n. induction fs as [|f rest IH]; intros n; simpl.
  - rewrite Nat.add_0_r. reflexivity.
  - rewrite IH. do 3 f_equal. lia.
Qed.

Lemma registrations_then_backup (regs : list (list Face)) (s : Py) (m : ModelStack) :
  stack_in_use s = Return m ->
  exists s',
    execute_all (map register regs ++ [BackupFaceDatabase]) s = (Return tt, s') /\
    faces (face_database (self s'))
    = slice_from (-1000)
        (faces (face_database (self s))
         ++ new_entries (ticks (world s)) (concat regs)) /\
    database_file (face_database (self s'))
    = database_file (face_database (self s)) /\
    files (world s') !! database_file (face_database (self s))
    = Some (pickle_dumps (faces (face_database (self s')))).
Proof.
  revert s. induction regs as [|fs rest IH]; intros s Hm.
  - eexists. simpl. unfold bind at 1.
    rewrite (backup_executes s m Hm). simpl.
    split; [reflexivity|]. rewrite app_nil_r.
    split; [reflexivity|]. split; [reflexivity|].
    apply lookup_insert_eq.
  - simpl. unfold bind at 1.
    rewrite (register_executes fs s m Hm).
    match goal with |- context [execute_all _ ?s1] =>
      destruct (IH s1 (stack_in_use_loaded _ _ _)) as (s' & Hrun & Hf & Hp & Hfile)
    end.
    exists s'. simpl in *.
    split; [exact Hrun|].
    split; [|split; [exact Hp | exact Hfile]].
    rewrite Hf, new_entries_app, app_assoc. reflexivity.
Qed.

End ExecutionFacts.

(** ** Persisting the gallery *)

Section Persistence.
Context `{Externals}.

Lemma concat_length_uniform {A} (k : nat) (ls : list (list A)) :
  Forall (fun l => length l = k) ls ->
  length (concat ls) = (length ls * k)%nat.
Proof.
  induction 1 as [|l ls Hl _ IH]; simpl; [reflexivity|].
  rewrite length_app, IH, Hl. reflexivity.
Qed.

(** C3.  [store] on a gallery of [n] entries leaves the last
    [min n 1000] of them in memory, in their order, and writes exactly
    that sequence to the file.  Hence a worker that starts with an
    empty gallery, registers [N] results of [k] faces each and then
    backs up leaves a file from which a new worker loads
    [min (N * k) 1000] entries: the most recently inserted ones, in
    insertion order. *)
Theorem store_keeps_newest_1000 :
  pickle_roundtrip ->
  (forall (self : FaceDatabase) (w : World),
     let n := length (faces self) in
     let after := store self w in
     faces (fst after) = drop (n - Nat.min n 1000) (faces self) /\
     length (faces (fst after)) = Nat.min n 1000 /\
     files (snd after) !! database_file self
     = Some (pickle_dumps (faces (fst after)))) /\
  (forall (s : Py) (m : ModelStack) (regs : list (list Face)) (k : nat),
     stack_in_use s = Return m ->
     faces (face_database (self s)) = [] ->
     database_file (face_database (self s)) = database_location ->
     Forall (fun fs => length fs = k) regs ->
     exists s' reloaded,
       execute_all (map register regs ++ [BackupFaceDatabase]) s
       = (Return tt, s') /\
       RecognitionProcess_init (world s') = Return reloaded /\
       let inserted := new_entries (ticks (world s)) (concat regs) in
       let gallery := faces (face_database reloaded) in
       length gallery = Nat.min (length regs * k) 1000 /\
       gallery
       = drop (length inserted - Nat.min (length inserted) 1000) inserted).
Proof.
  intros Hrt. split.
  - intros self w n after. subst n after. unfold store. simpl.
    split; [apply slice_from_newest|].
    split; [apply slice_from_length|].
    apply lookup_insert_eq.
  - intros s m regs k Hm Hempty Hpath Hk.
    destruct (registrations_then_backup regs s m Hm)
      as (s' & Hrun & Hf & _ & Hfile).
    rewrite Hempty in Hf. simpl in Hf. rewrite Hpath in Hfile.
    exists s'.
    exists {| models := None;
              face_database :=
                {| database_file := database_location;
                   faces := faces (face_database (self s')) |} |}.
    split; [exact Hrun|].
    split.
    + unfold RecognitionProcess_init, FaceDatabase_init.
      rewrite Hfile, Hrt. reflexivity.
    + simpl. rewrite Hf. split.
      * rewrite slice_from_length, new_entries_length.
        rewrite (concat_length_uniform k regs Hk). reflexivity.
      * apply slice_from_newest.
Qed.

(** C4.  A gallery of at most 1000 entries that is stored and then
    loaded from the same path comes back as the same sequence: same
    count, same timestamps, features and images, same order (the empty
    gallery included); and loading a path with no file gives the empty
    sequence. *)
Theorem store_then_load_identity :
  pickle_roundtrip ->
  (forall (self : FaceDatabase) (w : World),
     (length (faces self) <= 1000)%nat ->
     exists loaded,
       FaceDatabase_init (database_file self) (snd (store self w))
       = Return loaded /\
       faces loaded = faces self /\
       length (faces loaded) = length (faces self) /\
       map timestamp (faces loaded) = map timestamp (faces self) /\
       map features (faces loaded) = map features (faces self) /\
       map image (faces loaded) = map image (faces self)) /\
  (forall (path : string) (w : World),
     files w !! path = None ->
     FaceDatabase_init path w
     = Return {| database_file := path; faces := [] |}).
Proof.
  intros Hrt. split.
  - intros self w Hlen.
    exists (fst (store self w)).
    split; [apply reload_after_store; exact Hrt|].
    assert (Hsame : faces (fst (store self w)) = faces self)
      by (simpl; apply slice_from_short; exact Hlen).
    rewrite Hsame. repeat split; reflexivity.
  - intros path w Hnone. unfold FaceDatabase_init.
    rewrite Hnone. reflexivity.
Qed.

Lemma gallery_inv_preserved (op : GalleryOp) (g : FaceDatabase * World) :
  clock_monotone -> pickle_roundtrip ->
  gallery_inv g -> gallery_inv (apply_op op g).
Proof.
  intros Hmono Hrt. destruct g as [db w].
  intros (Hchron & Hstamp & Hfile). simpl in *.
  destruct op as [feats img| |]; simpl.
  - (* add *)
    unfold gallery_inv. simpl.
    assert (Hstep : forall l, stamped_before (ticks w) l ->
                              stamped_before (S (ticks w)) l)
      by (intros l; apply stamped_before_mono; [exact Hmono | lia]).
    split; [|split].
    + unfold chronological. rewrite map_app. simpl.
      apply Sorted_le_snoc; [exact Hchron|].
      unfold stamped_before in Hstamp.
      rewrite Forall_forall in Hstamp. apply Forall_forall.
      intros y Hy. apply list_elem_of_In, in_map_iff in Hy.
      destruct Hy as (sf & <- & Hin).
      apply Hstamp, list_elem_of_In, Hin.
    + unfold stamped_before. apply Forall_app. split.
      * apply Hstep, Hstamp.
      * constructor; [|constructor]. simpl.
        apply Hmono. lia.
    + intros content l Hlook Hload.
      destruct (Hfile content l Hlook Hload) as [Hc Hs].
      split; [exact Hc | apply Hstep, Hs].
  - (* store *)
    unfold gallery_inv. simpl.
    rewrite slice_from_newest.
    split; [|split].
    + apply chronological_drop, Hchron.
    + apply Forall_drop, Hstamp.
    + intros content l Hlook Hload.
      rewrite lookup_insert_eq in Hlook. injection Hlook as <-.
      rewrite Hrt in Hload. injection Hload as <-.
      split; [apply chronological_drop, Hchron | apply Forall_drop, Hstamp].
  - (* a new worker opens the file *)
    unfold FaceDatabase_init.
    destruct (files w !! database_file db) as [content|] eqn:Hlook.
    + destruct (pickle_loads content) as [l|e] eqn:Hload.
      * destruct (Hfile content l eq_refl Hload) as [Hc Hs].
        unfold gallery_inv. simpl.
        split; [exact Hc|]. split; [exact Hs|].
        intros content' l' Hl' Hload'. apply (Hfile content' l'); congruence.
      * unfold gallery_inv. simpl.
        split; [exact Hchron|]. split; [exact Hstamp|].
        intros content' l' Hl' Hload'. apply (Hfile content' l'); congruence.
    + unfold gallery_inv. simpl.
      split; [constructor|]. split; [constructor|].
      intros content l Hl. rewrite Hlook in Hl. discriminate.
Qed.

(** C9.  Under a monotone clock the gallery invariant (timestamps
    never decrease along the sequence, in memory and in the file, and
    none is later than the clock) is preserved by every gallery
    operation; [add] appends an entry stamped with the current time to
    the tail and leaves the files alone, [store] keeps a contiguous
    suffix; so every gallery reached from a first run stays in
    timestamp order. *)
Theorem gallery_timestamps_never_decrease :
  clock_monotone ->
  pickle_roundtrip ->
  (forall (op : GalleryOp) (g : FaceDatabase * World),
     gallery_inv g -> gallery_inv (apply_op op g)) /\
  (forall feats img (self : FaceDatabase) (w : World),
     faces (fst (add feats img self w))
     = faces self ++ [mkStoredFace (now (ticks w)) feats img] /\
     files (snd (add feats img self w)) = files w) /\
  (forall (self : FaceDatabase) (w : World),
     exists discarded,
       faces self = discarded ++ faces (fst (store self w))) /\
  (forall (ops : list GalleryOp) (path : string) (w : World),
     files w !! path = None ->
     chronological
       (faces (fst (apply_ops ops
                      ({| database_file := path; faces := [] |}, w))))).
Proof.
  intros Hmono Hrt.
  split; [|split; [|split]].
  - intros op g. apply gallery_inv_preserved; assumption.
  - intros feats img self w. split; reflexivity.
  - intros self w. simpl. apply slice_from_suffix.
  - intros ops path w Hnone.
    assert (Hinv : forall ops g, gallery_inv g -> gallery_inv (apply_ops ops g)).
    { clear ops path w Hnone.
      induction ops as [|op ops IH]; intros g Hg; simpl; [exact Hg|].
      apply IH, gallery_inv_preserved; assumption. }
    apply Hinv. unfold gallery_inv. simpl.
    split; [constructor|]. split; [constructor|].
    intros content l Hl. rewrite Hnone in Hl. discriminate.
Qed.

End Persistence.

(** ** Registration and detection *)

Section Dispatch.
Context `{Externals}.

Lemma new_entries_fields (n : nat) (fs : list Face) :
  Forall2 (fun f sf => features sf = face_features f /\
                       image sf = review_image f)
          fs (new_entries n fs) /\
  map timestamp (new_entries n fs) = map now (seq n (length fs)).
Proof.
  revert n. induction fs as [|f rest IH]; intros n; simpl.
  - split; [constructor | reflexivity].
  - destruct (IH (S n)) as [Hf Ht]. split.
    + constructor; [split; reflexivity | exact Hf].
    + rewrite Ht. reflexivity.
Qed.

(** C5.  With a model stack at hand, a [RegisterFaces] task whose
    recognition result is absent, has no face sequence or has an empty
    one returns an empty [RegistrationResult] without raising and
    leaves the gallery as it was; one that carries faces appends one
    [StoredFace] per face (current time, the features of the face, its
    picture) at the tail of the gallery and returns the new entries in
    a [RegistrationResult]. *)
Theorem register_faces_result :
  forall (s : Py) (m : ModelStack),
    stack_in_use s = Return m ->
    (forall rr,
       rr = None \/ rr = Some {| result_faces := None |} \/
       rr = Some {| result_faces := Some [] |} ->
       exists s',
         execute_task (RegisterFaces rr) s
         = (Return (Some (RegistrationResult [])), s') /\
         face_database (self s') = face_database (self s) /\
         world s' = world s) /\
    (forall fs,
       exists registered s',
         execute_task (RegisterFaces (Some {| result_faces := Some fs |})) s
         = (Return (Some (RegistrationResult registered)), s') /\
         faces (face_database (self s'))
         = faces (face_database (self s)) ++ registered /\
         length registered = length fs /\
         Forall2 (fun f sf => features sf = face_features f /\
                              image sf = review_image f)
                 fs registered /\
         map timestamp registered
         = map now (seq (ticks (world s)) (length fs)) /\
         files (world s') = files (world s)).
Proof.
  intros s m Hm. split.
  - intros rr [-> | [-> | ->]].
    + rewrite (execute_task_dispatch _ s m Hm).
      eexists. split; [reflexivity|]. split; reflexivity.
    + rewrite (execute_task_dispatch _ s m Hm).
      eexists. split; [reflexivity|]. split; reflexivity.
    + change (RegisterFaces (Some {| result_faces := Some [] |}))
        with (register []).
      rewrite (register_executes [] s m Hm).
      eexists. split; [reflexivity|]. simpl.
      destruct s as [[ms [path l]] [fl t cl]]. simpl.
      rewrite app_nil_r, Nat.add_0_r. split; reflexivity.
  - intros fs.
    change (RegisterFaces (Some {| result_faces := Some fs |}))
      with (register fs).
    rewrite (register_executes fs s m Hm).
    destruct (new_entries_fields (ticks (world s)) fs) as [Hf Ht].
    do 2 eexists. split; [reflexivity|]. simpl.
    split; [reflexivity|].
    split; [apply new_entries_length|].
    split; [exact Hf|]. split; [exact Ht | reflexivity].
Qed.

(** C6.  With a model stack at hand, a [RecognizeFaces] task on an image
    in which the detector finds no bounding box returns a
    [RecognitionResult] with an empty face sequence and does not raise;
    the detector is the only capability called for that frame, so the
    alignment, feature and matching stages are skipped. *)
Theorem recognize_without_faces :
  forall (s : Py) (m : ModelStack) (bgr_image : Image),
    stack_in_use s = Return m ->
    detect_faces m (cvtColor_BGR2RGB bgr_image) = Return [] ->
    exists s',
      execute_task (RecognizeFaces bgr_image) s
      = (Return (Some (Recognition {| result_faces := Some [] |})), s') /\
      calls (world s')
      = calls (world s) ++ [CallDetect (cvtColor_BGR2RGB bgr_image)] /\
      face_database (self s') = face_database (self s) /\
      files (world s') = files (world s).
Proof.
  intros s m bgr_image Hm Hdetect.
  rewrite (execute_task_dispatch _ s m Hm).
  unfold dispatch, __detect_faces, bind, the_models, invoke, set_models.
  simpl. rewrite Hdetect. simpl.
  eexists. split; [reflexivity|]. simpl.
  split; [reflexivity|]. split; reflexivity.
Qed.

End Dispatch.

(** ** The matching stage *)

Section Matching.
Context `{Externals}.

#[local] Instance outranks_transitive : Transitive outranks.
Proof. unfold outranks. intros a b c Hab Hbc. lia. Qed.

Lemma insert_match_perm (m : Match) (l : list Match) :
  Permutation (insert_match m l) (m :: l).
Proof.
  induction l as [|x rest IH]; simpl; [reflexivity|].
  destruct (snd m <? snd x); [|reflexivity].
  rewrite IH. apply perm_swap.
Qed.

Lemma insert_match_HdRel (a m : Match) (l : list Match) :
  HdRel outranks a l -> outranks a m -> HdRel outranks a (insert_match m l).
Proof.
  intros Hhd Ham. destruct l as [|x rest]; simpl.
  - constructor. exact Ham.
  - destruct (snd m <? snd x).
    + inversion Hhd; subst. constructor. assumption.
    + constructor. exact Ham.
Qed.

Lemma insert_match_sorted (m : Match) (l : list Match) :
  Sorted outranks l -> Sorted outranks (insert_match m l).
Proof.
  induction l as [|x rest IH]; intros Hs; simpl.
  - repeat constructor.
  - inversion Hs as [|? ? Hrest Hhd]; subst.
    destruct (snd m <? snd x) eqn:E.
    + constructor; [apply IH, Hrest|].
      apply insert_match_HdRel; [exact Hhd|].
      unfold outranks. lia.
    + constructor; [exact Hs|].
      constructor. unfold outranks. lia.
Qed.

Lemma ranked_matches_sorted similarity probe gallery :
  Sorted outranks (ranked_matches similarity probe gallery).
Proof.
  unfold ranked_matches.
  induction (candidates similarity probe gallery) as [|c cs IH]; simpl.
  - constructor.
  - apply insert_match_sorted, IH.
Qed.

Lemma ranked_matches_perm similarity probe gallery :
  Permutation (ranked_matches similarity probe gallery)
              (candidates similarity probe gallery).
Proof.
  unfold ranked_matches.
  induction (candidates similarity probe gallery) as [|c cs IH]; simpl.
  - reflexivity.
  - rewrite insert_match_perm, IH. reflexivity.
Qed.

Lemma ranked_matches_length similarity probe gallery :
  length (ranked_matches similarity probe gallery) = length gallery.
Proof.
  rewrite (Permutation_length (ranked_matches_perm similarity probe gallery)).
  unfold candidates. apply length_map.
Qed.

Lemma outranks_descending (ms : list Match) :
  Sorted outranks ms -> descending ms.
Proof.
  unfold descending.
  induction 1 as [|a l Hs IH Hhd]; simpl; constructor; [exact IH|].
  destruct Hhd as [|b l' Hab]; simpl; constructor.
  unfold outranks in Hab. lia.
Qed.

Lemma slice_of_ranking similarity probe gallery (k : Z) :
  0 <= k <= Z.of_nat (length gallery) ->
  top_matches similarity (Z.to_nat k) probe gallery
    (slice_to k (ranked_matches similarity probe gallery)).
Proof.
  intros Hk. rewrite slice_to_take by lia.
  pose proof (ranked_matches_sorted similarity probe gallery) as Hsorted.
  pose proof (ranked_matches_perm similarity probe gallery) as Hperm.
  pose proof (ranked_matches_length similarity probe gallery) as Hlen.
  set (ranking := ranked_matches similarity probe gallery) in *.
  apply Sorted_StronglySorted in Hsorted; [|apply outranks_transitive].
  rewrite <- (take_drop (Z.to_nat k) ranking) in Hsorted.
  split; [|split].
  - rewrite length_take. lia.
  - apply outranks_descending, StronglySorted_Sorted.
    exact (StronglySorted_app_1_l _ _ _ Hsorted).
  - exists (drop (Z.to_nat k) ranking). split.
    + rewrite take_drop. exact Hperm.
    + intros kept out Hkept Hout.
      apply (StronglySorted_app_1_elem_of _ _ _ kept out Hsorted);
        apply list_elem_of_In; assumption.
Qed.

Lemma find_matches_loop similarity (m : ModelStack) (db : FaceDatabase)
    (fs : list Face) :
  (forall probe gallery,
     match_faces m probe gallery
     = Return (ranked_matches similarity probe gallery)) ->
  0 <= num_matches_debug <= Z.of_nat (length (faces db)) ->
  forall s,
    models (self s) = Some m ->
    face_database (self s) = db ->
    exists fs' s',
      _find_matches fs s = (Return fs', s') /\
      self s' = self s /\
      files (world s') = files (world s) /\
      Forall2 (fun face face' =>
                 exists ms,
                   matches face' = Some ms /\
                   top_matches similarity (Z.to_nat num_matches_debug)
                     (face_features face) (faces db) ms)
              fs fs'.
Proof.
  intros Hcap Hk.
  induction fs as [|face rest IH]; intros s Hm Hdb.
  - exists [], s. simpl. repeat split; constructor.
  - simpl. unfold bind, the_models, get, invoke. rewrite Hm.
    rewrite Hcap.
    destruct (IH (log_call (CallMatch (face_features face)) s))
      as (rest' & s' & Hrun & Hself & Hfiles & Hall);
      [exact Hm | exact Hdb |].
    rewrite Hrun. do 2 eexists. split; [reflexivity|].
    split; [exact Hself|]. split; [exact Hfiles|].
    constructor; [|exact Hall].
    eexists. split; [reflexivity|].
    rewrite Hdb. apply slice_of_ranking. exact Hk.
Qed.

(** C7.  When the matching capability ranks the gallery of [M] stored
    faces by descending score and [0 <= num_matches = k <= M], the match
    list [_find_matches] assigns to every face has length exactly [k],
    is in descending score order, holds no score lower than the score
    of an omitted candidate, and the stage leaves the gallery (and the
    files) as they were. *)
Theorem find_matches_keeps_best :
  forall similarity (s : Py) (m : ModelStack) (fs : list Face),
    models (self s) = Some m ->
    (forall probe gallery,
       match_faces m probe gallery
       = Return (ranked_matches similarity probe gallery)) ->
    0 <= num_matches_debug
      <= Z.of_nat (length (faces (face_database (self s)))) ->
    exists fs' s',
      _find_matches fs s = (Return fs', s') /\
      face_database (self s') = face_database (self s) /\
      files (world s') = files (world s) /\
      Forall2 (fun face face' =>
                 exists ms omitted,
                   matches face' = Some ms /\
                   length ms = Z.to_nat num_matches_debug /\
                   descending ms /\
                   Permutation (ms ++ omitted)
                     (candidates similarity (face_features face)
                        (faces (face_database (self s)))) /\
                   forall kept out,
                     In kept ms -> In out omitted -> snd out <= snd kept)
              fs fs'.
Proof.
  intros similarity s m fs Hm Hcap Hk.
  destruct (find_matches_loop similarity m (face_database (self s)) fs
              Hcap Hk s Hm eq_refl)
    as (fs' & s' & Hrun & Hself & Hfiles & Hall).
  exists fs', s'. split; [exact Hrun|].
  split; [rewrite Hself; reflexivity|]. split; [exact Hfiles|].
  eapply Forall2_impl; [exact Hall|].
  intros face face' (ms & Hms & Hlen & Hdesc & omitted & Hperm & Hlow).
  exists ms, omitted. auto.
Qed.

End Matching.

(** ** The alignment stage *)

Section Alignment.
Context `{Externals}.

Lemma crop_calls_early (m : ModelStack) (rgb_image : Image) (boxes : list BoundingBox) :
  Forall (fun c => is_later_stage c = false)
         (flat_map (crop_calls m rgb_image) boxes).
Proof.
  induction boxes as [|b rest IH]; simpl; [constructor|].
  apply Forall_app. split; [|exact IH].
  unfold crop_calls. destruct (find_landmarks m rgb_image b);
    repeat constructor.
Qed.

Lemma crop_raises (m : ModelStack) (rgb_image : Image) (e : Exception)
    (before : list Face) (face : Face) (after : list Face) :
  Forall (aligns m rgb_image) (map bounding_box before) ->
  find_landmarks m rgb_image (bounding_box face) = Raise e ->
  forall s,
    models (self s) = Some m ->
    exists s',
      _crop rgb_image (before ++ face :: after) s = (Raise e, s') /\
      self s' = self s /\
      files (world s') = files (world s) /\
      calls (world s')
      = calls (world s)
        ++ flat_map (crop_calls m rgb_image) (map bounding_box before)
        ++ [CallLandmarks (bounding_box face)].
Proof.
  intros Hbefore Hfail.
  induction before as [|f rest IH]; intros s Hm; simpl.
  - unfold bind, the_models, invoke. rewrite Hm, Hfail.
    eexists. split; [reflexivity|]. simpl. auto.
  - inversion Hbefore as [|? ? (marks & cropped & Hmarks & Hcrop) Hrest]; subst.
    unfold bind, the_models, invoke. rewrite Hm, Hmarks, Hcrop.
    destruct (IH Hrest
                (log_call (CallCrop marks)
                   (log_call (CallLandmarks (bounding_box f)) s)) Hm)
      as (s' & Hrun & Hself & Hfiles & Hcalls).
    rewrite Hrun. exists s'. split; [reflexivity|].
    split; [exact Hself|]. split; [exact Hfiles|].
    rewrite Hcalls. simpl. unfold crop_calls at 2. rewrite Hmarks.
    rewrite <- !app_assoc. reflexivity.
Qed.

Lemma detected_boxes (bgr_image : Image) (boxes : list BoundingBox) :
  map bounding_box
      (map (fun bt => mkFace (fst bt) (snd bt) None None None None)
           (zip boxes
                (map (fun box => pixels bgr_image (top box) (bottom box)
                                        (left box) (right box)) boxes)))
  = boxes.
Proof.
  induction boxes as [|b rest IH]; simpl; [reflexivity|].
  rewrite IH. reflexivity.
Qed.

Lemma map_eq_app_cons {A B} (f : A -> B) (l : list A) (ys : list B) (y : B)
    (zs : list B) :
  map f l = ys ++ y :: zs ->
  exists l1 x l2, l = l1 ++ x :: l2 /\ map f l1 = ys /\ f x = y.
Proof.
  revert l. induction ys as [|y0 ys IH]; intros [|a l] Heq;
    simpl in Heq; try discriminate.
  - injection Heq as Ha Hl. exists [], a, l. auto.
  - injection Heq as Ha Hl.
    destruct (IH l Hl) as (l1 & x & l2 & -> & <- & <-).
    exists (a :: l1), x, l2. simpl. rewrite Ha. auto.
Qed.

(** C8, as the code has it.  A landmark-detection failure on one face of
    a frame is not isolated: the exception leaves [_crop] and
    [execute_task], so the task yields no result; the faces after the
    failing one are not aligned, and no face of the frame reaches the
    feature-extraction or the matching stage.  Only the gallery and the
    files are untouched. *)
Theorem landmark_failure_aborts_frame :
  forall (s : Py) (m : ModelStack) (bgr_image : Image)
         (before : list BoundingBox) (box : BoundingBox)
         (after : list BoundingBox) (e : Exception),
    let rgb_image := cvtColor_BGR2RGB bgr_image in
    stack_in_use s = Return m ->
    detect_faces m rgb_image = Return (before ++ box :: after) ->
    Forall (aligns m rgb_image) before ->
    find_landmarks m rgb_image box = Raise e ->
    exists s' made,
      execute_task (RecognizeFaces bgr_image) s = (Raise e, s') /\
      calls (world s') = calls (world s) ++ made /\
      made = CallDetect rgb_image
             :: flat_map (crop_calls m rgb_image) before
             ++ [CallLandmarks box] /\
      Forall (fun c => is_later_stage c = false) made /\
      face_database (self s') = face_database (self s) /\
      files (world s') = files (world s).
Proof.
  intros s m bgr_image before box after e rgb_image Hm Hdetect Hbefore Hfail.
  rewrite (execute_task_dispatch _ s m Hm).
  unfold dispatch. fold rgb_image.
  unfold __detect_faces, bind at 1 2 3, the_models, invoke.
  simpl. rewrite Hdetect. unfold ret at 1.
  set (fs := map _ (zip _ _)).
  assert (Hboxes : map bounding_box fs = before ++ box :: after)
    by apply detected_boxes.
  destruct (map_eq_app_cons _ _ _ _ _ Hboxes)
    as (fs1 & face & fs2 & Hfs & Hfs1 & Hface).
  rewrite Hfs. rewrite length_app. simpl.
  replace (0 <? length fs1 + S (length fs2))%nat with true
    by (symmetry; apply Nat.ltb_lt; lia).
  unfold bind at 1 2.
  match goal with |- context [_crop rgb_image _ ?s0] =>
    destruct (crop_raises m rgb_image e fs1 face fs2) with (s := s0)
      as (s' & Hrun & Hself & Hfiles & Hcalls)
  end.
  { rewrite Hfs1. exact Hbefore. }
  { rewrite Hface. exact Hfail. }
  { reflexivity. }
  rewrite Hrun. exists s'. eexists.
  split; [reflexivity|].
  rewrite Hcalls, Hfs1, Hface. simpl. rewrite <- app_assoc. simpl.
  split; [reflexivity|]. split; [reflexivity|].
  split.
  - constructor; [reflexivity|].
    apply Forall_app. split; [apply crop_calls_early|].
    repeat constructor.
  - rewrite Hself, Hfiles. split; reflexivity.
Qed.

End Alignment.

(** ** The worker loop *)

Section WorkerFacts.
Context `{Carriers} {St : Type} `{!WorkerProcess St}.

Lemma run_events_app (evs1 evs2 : list Event) (p : Process St) :
  run_events (evs1 ++ evs2) p = run_events evs2 (run_events evs1 p).
Proof. apply fold_left_app. Qed.

Lemma spin_on_empty_queue (n : nat) (st : St) :
  run_events (repeat Iterate n) (fresh st) = fresh st.
Proof.
  induction n as [|n IH]; simpl; [reflexivity | exact IH].
Qed.

Lemma stopped_stays (n : nat) (p : Process St) :
  terminated p = true -> run_events (repeat Iterate n) p = p.
Proof.
  intros Hp. induction n as [|n IH]; simpl; [reflexivity|].
  replace (step p) with p; [exact IH|].
  unfold step. unfold terminated in Hp.
  destruct (phase p); try discriminate; reflexivity.
Qed.

Lemma step_returns (task : Task) q rq eq done st result st' :
  is_Shutdown task = false ->
  execute_task task st = (Return result, st') ->
  step (mkProcess (task :: q) rq eq MainLoop done st)
  = mkProcess q (put_result result rq) eq MainLoop (done ++ [task]) st'.
Proof.
  intros Hns Hex. unfold step. simpl. rewrite Hns, Hex. reflexivity.
Qed.

Lemma step_raises (task : Task) q rq eq done st e st' :
  is_Shutdown task = false ->
  execute_task task st = (Raise e, st') ->
  step (mkProcess (task :: q) rq eq MainLoop done st)
  = mkProcess q rq (eq ++ [Error]) (Failed e) (done ++ [task]) st'.
Proof.
  intros Hns Hex. unfold step. simpl. rewrite Hns, Hex. reflexivity.
Qed.

Lemma after_return (evs : list Event) (p : Process St) :
  phase p = Finished ->
  run_events evs p
  = mkProcess (task_queue p ++ enqueued_by evs) (result_queue p)
              (error_queue p) Finished (executed p) (attrs p).
Proof.
  revert p. induction evs as [|ev evs IH]; intros [q rq eq ph done st] Hp;
    simpl in *; subst ph.
  - rewrite app_nil_r. reflexivity.
  - destruct ev as [task|]; simpl.
    + unfold put_task. simpl. rewrite IH by reflexivity. simpl.
      rewrite <- app_assoc. reflexivity.
    + unfold step. simpl. apply IH. reflexivity.
Qed.

Lemma after_failure (e : Exception) (evs : list Event) (p : Process St) :
  phase p = Failed e ->
  run_events evs p
  = mkProcess (task_queue p ++ enqueued_by evs) (result_queue p)
              (error_queue p) (Failed e) (executed p) (attrs p).
Proof.
  revert p. induction evs as [|ev evs IH]; intros [q rq eq ph done st] Hp;
    simpl in *; subst ph.
  - rewrite app_nil_r. reflexivity.
  - destruct ev as [task|]; simpl.
    + unfold put_task. simpl. rewrite IH by reflexivity. simpl.
      rewrite <- app_assoc. reflexivity.
    + unfold step. simpl. apply IH. reflexivity.
Qed.

(** C2.  When [execute_task] raises on a task, that iteration puts
    exactly one [Error] on the error queue and nothing on the result
    queue, and [run] re-raises: whatever happens afterwards, no further
    task is executed, no result or error is added, and the tasks still
    in the queue (and those put later) stay there, the drain loop never
    being entered. *)
Theorem failing_task_is_fatal :
  forall (p : Process St) (task : Task) (rest : list Task)
         (e : Exception) (st' : St),
    phase p = MainLoop ->
    task_queue p = task :: rest ->
    is_Shutdown task = false ->
    execute_task task (attrs p) = (Raise e, st') ->
    let failed := step p in
    error_queue failed = error_queue p ++ [Error] /\
    result_queue failed = result_queue p /\
    executed failed = executed p ++ [task] /\
    task_queue failed = rest /\
    phase failed = Failed e /\
    terminated failed = true /\
    forall evs,
      let later := run_events evs failed in
      executed later = executed p ++ [task] /\
      result_queue later = result_queue p /\
      error_queue later = error_queue p ++ [Error] /\
      phase later = Failed e /\
      task_queue later = rest ++ enqueued_by evs.
Proof.
  intros [q rq eq ph done st] task rest e st' Hph Hq Hns Hex failed.
  simpl in *. subst ph q.
  assert (Hfailed : failed
                    = mkProcess rest rq (eq ++ [Error]) (Failed e)
                                (done ++ [task]) st')
    by (apply step_raises; assumption).
  rewrite Hfailed. simpl. repeat split.
  all: rewrite (after_failure e) by reflexivity; reflexivity.
Qed.

End WorkerFacts.

Section ScenarioFacts.
Context `{Carriers} {St : Type} `{!WorkerProcess St}.
Variables (st st1 st2 : St) (A B C : Task) (rA rB : option Result).
Hypothesis A_is_task : is_Shutdown A = false.
Hypothesis B_is_task : is_Shutdown B = false.
Hypothesis A_returns : execute_task A st = (Return rA, st1).
Hypothesis B_returns : execute_task B st1 = (Return rB, st2).

Lemma scenario_prefixes (puts : list Task) :
  prefix puts (scenario A B C) ->
  puts = [] \/ puts = [A] \/ puts = [A; B] \/ puts = [A; B; Shutdown] \/
  puts = [A; B; Shutdown; C].
Proof.
  unfold scenario. intros Hp.
  destruct puts as [|t1 puts]; [auto|].
  pose proof (prefix_cons_inv_1 _ _ _ _ Hp) as ->.
  apply prefix_cons_inv_2 in Hp.
  destruct puts as [|t2 puts]; [auto|].
  pose proof (prefix_cons_inv_1 _ _ _ _ Hp) as ->.
  apply prefix_cons_inv_2 in Hp.
  destruct puts as [|t3 puts]; [auto|].
  pose proof (prefix_cons_inv_1 _ _ _ _ Hp) as ->.
  apply prefix_cons_inv_2 in Hp.
  destruct puts as [|t4 puts]; [auto 6|].
  pose proof (prefix_cons_inv_1 _ _ _ _ Hp) as ->.
  apply prefix_cons_inv_2 in Hp.
  apply prefix_nil_inv in Hp. subst. auto 6.
Qed.

(** Closes [on_track] by trying each place the worker can be. *)
Ltac place :=
  first
    [ left; exists 0%nat; split; [simpl; lia | reflexivity]
    | left; exists 1%nat; split; [simpl; lia | reflexivity]
    | left; exists 2%nat; split; [simpl; lia | reflexivity]
    | left; exists 3%nat; split; [simpl; lia | reflexivity]
    | left; exists 4%nat; split; [simpl; lia | reflexivity]
    | right; split; [simpl; lia | reflexivity] ].

Ltac iterate_once :=
  unfold step at 1; simpl;
  rewrite ?A_is_task, ?A_returns, ?B_is_task, ?B_returns.

Lemma on_track_step (puts : list Task) (p : Process St) :
  prefix puts (scenario A B C) ->
  on_track st st1 st2 A B rA rB puts p ->
  on_track st st1 st2 A B rA rB puts (step p).
Proof.
  intros Hp [(c & Hc & ->) | (Hlen & ->)].
  - destruct (scenario_prefixes puts Hp) as [-> | [-> | [-> | [-> | ->]]]];
      simpl in Hc;
      (do 5 (try destruct c as [|c])); try lia;
      iterate_once; place.
  - right. split; [exact Hlen | reflexivity].
Qed.

Lemma on_track_put (puts : list Task) (t : Task) (p : Process St) :
  on_track st st1 st2 A B rA rB puts p ->
  phase p <> Finished ->
  on_track st st1 st2 A B rA rB (puts ++ [t]) (put_task t p).
Proof.
  intros [(c & Hc & ->) | (_ & ->)] Hph.
  - left. exists c. split; [rewrite length_app; lia|].
    rewrite drop_app_le by exact Hc.
    do 3 (try destruct c as [|c]); reflexivity.
  - exfalso. apply Hph. reflexivity.
Qed.

Lemma enqueued_by_app (evs1 evs2 : list Event) :
  enqueued_by (evs1 ++ evs2) = enqueued_by evs1 ++ enqueued_by evs2.
Proof. unfold enqueued_by. apply flat_map_app. Qed.

Lemma on_track_run (evs : list Event) :
  prefix (enqueued_by evs) (scenario A B C) ->
  (forall before after,
     evs = before ++ Put C :: after ->
     phase (run_events before (fresh st)) <> Finished) ->
  on_track st st1 st2 A B rA rB (enqueued_by evs) (run_events evs (fresh st)).
Proof.
  induction evs as [|ev evs IH] using rev_ind; intros Hpre Hintime.
  - left. exists 0%nat. split; [simpl; lia | reflexivity].
  - rewrite enqueued_by_app in Hpre |- *. rewrite run_events_app.
    assert (Hon : on_track st st1 st2 A B rA rB (enqueued_by evs)
                    (run_events evs (fresh st))).
    { apply IH; [exact (prefix_app_l _ _ _ Hpre)|].
      intros before after ->. apply (Hintime before (after ++ [ev])).
      rewrite <- app_assoc. reflexivity. }
    destruct ev as [t|]; simpl.
    + apply on_track_put; [exact Hon|].
      destruct Hon as [(c & Hc & Heq) | (Hlen & Heq)].
      * rewrite Heq. do 3 (try destruct c as [|c]); discriminate.
      * assert (t = C) as ->.
        { destruct (scenario_prefixes _ Hpre) as [E | [E | [E | [E | E]]]];
            apply (f_equal (@length Task)) in E as Hl;
            rewrite length_app in Hl; simpl in Hl; try lia.
          change [A; B; Shutdown; C] with ([A; B; Shutdown] ++ [C]) in E.
          apply app_inj_tail in E. destruct E as [_ E]. exact E. }
        apply (Hintime evs []). reflexivity.
    + rewrite app_nil_r in *. apply on_track_step; assumption.
Qed.

Lemma on_track_facts (puts : list Task) (p : Process St) :
  on_track st st1 st2 A B rA rB puts p ->
  prefix (executed p) [A; B] /\
  error_queue p = [] /\
  (result_queue p = [] \/ result_queue p = put_result rA [] \/
   result_queue p = put_result rB (put_result rA [])).
Proof.
  intros [(c & _ & ->) | (_ & ->)].
  - do 3 (try destruct c as [|c]); simpl;
      (split; [|split; [reflexivity | auto]]).
    + apply prefix_nil.
    + exists [B]. reflexivity.
    + reflexivity.
    + reflexivity.
  - simpl. split; [reflexivity|]. split; [reflexivity | auto].
Qed.

Lemma on_track_finish (n : nat) (p : Process St) :
  on_track st st1 st2 A B rA rB (scenario A B C) p ->
  (5 <= n)%nat ->
  run_events (repeat Iterate n) p = returned st2 A B rA rB.
Proof.
  intros Hon Hn.
  replace n with (5 + (n - 5))%nat by lia.
  rewrite repeat_app, run_events_app.
  assert (H5 : run_events (repeat Iterate 5) p = returned st2 A B rA rB).
  { destruct Hon as [(c & Hc & ->) | (_ & ->)]; [|reflexivity].
    simpl in Hc.
    do 5 (try destruct c as [|c]); try lia;
      unfold run_events; simpl; repeat iterate_once; reflexivity. }
  rewrite H5. apply stopped_stays. reflexivity.
Qed.

(** C1.  A worker has just been started and polls its queue while a
    producer puts [Task A; Task B; Shutdown; Task C], in that order and
    interleaved with the polls in any way, C arriving before [run] has
    returned; A and B are tasks that [execute_task] completes.  Then at
    every moment the tasks executed are an initial part of [A; B] and
    the result queue holds nothing but the result of A followed by the
    result of B, so C is never executed and produces no result; and
    after at most five more iterations the worker has executed A then
    B, put their results in that order, taken [Shutdown], removed C in
    the drain loop, found the queue empty and returned. *)
Theorem shutdown_after_two_tasks (evs : list Event) (n : nat) :
  enqueued_by evs = scenario A B C ->
  (forall before after,
     evs = before ++ Put C :: after ->
     phase (run_events before (fresh st)) <> Finished) ->
  (forall before after,
     evs = before ++ after ->
     let p := run_events before (fresh st) in
     prefix (executed p) [A; B] /\
     error_queue p = [] /\
     (result_queue p = [] \/ result_queue p = put_result rA [] \/
      result_queue p = put_result rB (put_result rA []))) /\
  ((5 <= n)%nat ->
   run_events (evs ++ repeat Iterate n) (fresh st)
   = mkProcess [] (put_result rB (put_result rA [])) [] Finished [A; B] st2).
Proof.
  intros Hputs Hintime. split.
  - intros before after ->. simpl.
    apply (on_track_facts (enqueued_by before)), on_track_run.
    + rewrite enqueued_by_app in Hputs. rewrite <- Hputs.
      apply prefix_app_r. reflexivity.
    + intros b a ->. apply (Hintime b (a ++ after)).
      rewrite <- app_assoc. reflexivity.
  - intros Hn. rewrite run_events_app.
    apply on_track_finish; [|exact Hn].
    rewrite <- Hputs. apply on_track_run; [|exact Hintime].
    rewrite Hputs. reflexivity.
Qed.

End ScenarioFacts.

(** ** The context manager *)

Section ContextManagerFacts.
Context `{Externals}.

(** C10.  Whenever the managed block of [init_recognition] is entered
    and left, with whatever outcome [r] (a normal exit or an exception
    of the block), exactly one [Shutdown] is put at the tail of the work
    queue as the block was left, and the outcome of the block is the
    outcome of the [with] statement. *)
Theorem shutdown_put_on_every_exit :
  forall (start block : RecognitionProcess -> M System unit)
         (s s0 s1 : System) (recognition : RecognitionProcess)
         (r : Outcome unit),
    RecognitionProcess_init (system_world s) = Return recognition ->
    start recognition s = (Return tt, s0) ->
    block recognition s0 = (r, s1) ->
    init_recognition start block s
    = (r, mkSystem (work_queue s1 ++ [Shutdown]) (results_queue s1)
                   (errors_queue s1) (system_world s1)) /\
    count_Shutdown (work_queue s1 ++ [Shutdown])
    = S (count_Shutdown (work_queue s1)).
Proof.
  intros start block s s0 s1 recognition r Hinit Hstart Hblock. split.
  - unfold init_recognition, bind, try_finally. rewrite Hinit.
    rewrite Hstart, Hblock. reflexivity.
  - unfold count_Shutdown. rewrite filter_app, length_app. simpl. lia.
Qed.

End ContextManagerFacts.

(** * Further properties *)

(** ** Serving a queue *)

Section ServingFacts.
Context `{Carriers} {St : Type} `{!WorkerProcess St}.

Lemma accounted_step (puts : list Task) (p : Process St) :
  accounted puts p -> accounted puts (step p).
Proof.
  destruct p as [q rq eq ph done st]. unfold accounted, step. simpl.
  intros [Hdone Hacc]. destruct ph; simpl in *.
  - destruct q as [|task q]; simpl; [auto|].
    destruct (is_Shutdown task) eqn:Hs; simpl.
    + split; [exact Hdone|]. exists [].
      destruct task; try discriminate. exact Hacc.
    + destruct (execute_task task st) as [[result|e] st']; simpl;
        (split; [apply Forall_app; split; [exact Hdone | repeat constructor; exact Hs]|]);
        rewrite <- app_assoc; exact Hacc.
  - destruct q as [|task q]; simpl; [auto|].
    split; [exact Hdone|].
    destruct Hacc as (dropped & Hacc). exists (dropped ++ [task]).
    rewrite <- app_assoc. exact Hacc.
  - auto.
  - auto.
Qed.

Lemma accounted_put (puts : list Task) (task : Task) (p : Process St) :
  accounted puts p -> accounted (puts ++ [task]) (put_task task p).
Proof.
  destruct p as [q rq eq ph done st]. unfold accounted, put_task. simpl.
  intros [Hdone Hacc]. split; [exact Hdone|].
  destruct ph; simpl in *.
  - rewrite <- Hacc, <- app_assoc. reflexivity.
  - destruct Hacc as (dropped & Hacc). exists dropped.
    rewrite <- Hacc, <- !app_assoc. simpl. rewrite <- app_assoc. reflexivity.
  - destruct Hacc as (dropped & Hacc). exists dropped.
    rewrite <- Hacc, <- !app_assoc. simpl. rewrite <- app_assoc. reflexivity.
  - rewrite <- Hacc, <- app_assoc. reflexivity.
Qed.

Lemma accounted_run (evs : list Event) (puts : list Task) (p : Process St) :
  accounted puts p ->
  accounted (puts ++ enqueued_by evs) (run_events evs p).
Proof.
  revert puts p. induction evs as [|ev evs IH]; intros puts p Hacc; simpl.
  - rewrite app_nil_r. exact Hacc.
  - destruct ev as [task|]; simpl.
    + change (task :: enqueued_by evs) with ([task] ++ enqueued_by evs).
      rewrite app_assoc. apply IH, accounted_put, Hacc.
    + apply IH, accounted_step, Hacc.
Qed.

(** X1.  Tasks are executed first in, first out, and none is lost or
    executed twice: whatever [execute_task] does and however the puts and
    the iterations interleave, the tasks executed so far are an initial
    part of the tasks put, none of them is [Shutdown], and the tasks put
    are the executed ones, then (from the first [Shutdown] on) the ones
    dropped by the drain loop, then the ones still queued.  Nothing is
    dropped while the worker is in its main loop or has failed. *)
Theorem tasks_served_in_order (evs : list Event) (st : St) :
  let p := run_events evs (fresh st) in
  prefix (executed p) (enqueued_by evs) /\
  Forall (fun t => is_Shutdown t = false) (executed p) /\
  (exists dropped,
     executed p ++ dropped ++ task_queue p = enqueued_by evs /\
     (dropped = [] \/ exists more, dropped = Shutdown :: more) /\
     (phase p = MainLoop \/ (exists e, phase p = Failed e) -> dropped = [])).
Proof.
  intros p.
  assert (Hacc : accounted (enqueued_by evs) p).
  { apply (accounted_run evs [] (fresh st)).
    split; [constructor | reflexivity]. }
  destruct Hacc as [Hdone Hacc]. split; [|split; [exact Hdone|]].
  - destruct (phase p); [| destruct Hacc as (dropped & Hacc) ..|];
      rewrite <- Hacc; eexists; reflexivity.
  - destruct (phase p) eqn:Hph.
    + exists []. split; [exact Hacc|]. split; [left; reflexivity | reflexivity].
    + destruct Hacc as (dropped & Hacc). exists (Shutdown :: dropped).
      split; [exact Hacc|]. split; [right; eexists; reflexivity|].
      intros [Hm | (e & He)]; discriminate.
    + destruct Hacc as (dropped & Hacc). exists (Shutdown :: dropped).
      split; [exact Hacc|]. split; [right; eexists; reflexivity|].
      intros [Hm | (e & He)]; discriminate.
    + exists []. split; [exact Hacc|]. split; [left; reflexivity | reflexivity].
Qed.

Lemma settled_step (p : Process St) : settled p -> settled (step p).
Proof.
  destruct p as [q rq eq ph done st]. unfold settled, step. simpl.
  intros [Hlen Herr]. destruct ph; simpl in *; auto.
  - destruct q as [|task q]; simpl; [auto|].
    destruct (is_Shutdown task); simpl; [auto|].
    destruct (execute_task task st) as [[[r|]|e] st']; simpl;
      subst eq; rewrite ?length_app; simpl; split; try reflexivity; lia.
  - destruct q as [|task q]; simpl; auto.
Qed.

Lemma settled_run (evs : list Event) (p : Process St) :
  settled p -> settled (run_events evs p).
Proof.
  revert p. induction evs as [|ev evs IH]; intros p Hp; simpl; [exact Hp|].
  apply IH. destruct ev as [task|]; simpl; [|apply settled_step, Hp].
  destruct p as [q rq eq ph done st]. exact Hp.
Qed.

(** X2.  A worker reports at most one error in its life, and exactly
    when [run] has re-raised: at every moment the error queue is empty
    unless the worker has failed, and then it holds the single [Error];
    results and errors together never outnumber the executed tasks. *)
Theorem one_error_at_most (evs : list Event) (st : St) :
  let p := run_events evs (fresh st) in
  (error_queue p = [] /\ (forall e, phase p <> Failed e) \/
   error_queue p = [Error] /\ (exists e, phase p = Failed e)) /\
  (length (result_queue p) + length (error_queue p)
   <= length (executed p))%nat.
Proof.
  intros p.
  assert (Hs : settled p).
  { apply settled_run. split; [simpl; lia | reflexivity]. }
  destruct Hs as [Hlen Herr]. split; [|exact Hlen].
  destruct (phase p) eqn:Hph.
  - left. split; [exact Herr | discriminate].
  - left. split; [exact Herr | discriminate].
  - left. split; [exact Herr | discriminate].
  - right. split; [exact Herr | eexists; reflexivity].
Qed.

End ServingFacts.

Section QueueFacts.
Context `{Carriers} {St : Type} `{!WorkerProcess St}.

Lemma main_loop_serves (tasks q : list Task) :
  Forall (fun t => is_Shutdown t = false) tasks ->
  forall rq eq done st rq' st',
    serve tasks rq st = (Return rq', st') ->
    run_events (repeat Iterate (length tasks))
      (mkProcess (tasks ++ q) rq eq MainLoop done st)
    = mkProcess q rq' eq MainLoop (done ++ tasks) st'.
Proof.
  induction 1 as [|task tasks Hs _ IH]; intros rq eq done st rq' st' Hserve.
  - simpl in *. unfold ret in Hserve. injection Hserve as -> ->.
    rewrite app_nil_r. reflexivity.
  - simpl in Hserve. unfold bind in Hserve.
    destruct (execute_task task st) as [[result|e] st1] eqn:Hex;
      [|discriminate].
    simpl. rewrite (step_returns task _ _ _ _ _ result st1 Hs Hex).
    rewrite (IH _ _ _ _ _ _ Hserve). rewrite <- app_assoc. reflexivity.
Qed.

Lemma drain_loop_empties n (rest : list Task) rq eq done (st : St) :
  (length rest + 1 <= n)%nat ->
  run_events (repeat Iterate n) (mkProcess rest rq eq DrainLoop done st)
  = mkProcess [] rq eq Finished done st.
Proof.
  revert n. induction rest as [|task rest IH]; intros n Hn.
  - destruct n as [|n]; [simpl in Hn; lia|]. simpl.
    apply stopped_stays. reflexivity.
  - destruct n as [|n]; [simpl in Hn; lia|]. simpl.
    apply IH. simpl in Hn. lia.
Qed.

(** X3.  The worker serves the queue up to the first [Shutdown] and
    drops the rest: when the tasks in front of [Shutdown] all complete,
    then after one iteration per queued task and one more the worker has
    executed exactly those tasks, in order, put their results in order,
    emptied the queue without executing anything behind [Shutdown]
    (further [Shutdown]s included), and [run] has returned. *)
Theorem queue_served_until_shutdown
    (tasks rest : list Task) rq eq done (st st' : St) rq' (n : nat) :
  Forall (fun t => is_Shutdown t = false) tasks ->
  serve tasks rq st = (Return rq', st') ->
  (length tasks + length rest + 2 <= n)%nat ->
  run_events (repeat Iterate n)
    (mkProcess (tasks ++ Shutdown :: rest) rq eq MainLoop done st)
  = mkProcess [] rq' eq Finished (done ++ tasks) st'.
Proof.
  intros Htasks Hserve Hn.
  replace n with (length tasks + (1 + (n - length tasks - 1)))%nat by lia.
  rewrite !repeat_app, !run_events_app.
  rewrite (main_loop_serves tasks _ Htasks _ _ _ _ _ _ Hserve).
  simpl repeat. simpl run_events at 2.
  apply drain_loop_empties. lia.
Qed.

(** X4.  The first task that raises ends the worker where it stands:
    the tasks in front of it were executed and their results delivered,
    one [Error] is put, [run] re-raises, and everything behind the
    failing task stays in the queue however long the worker is given. *)
Theorem first_failure_stops_the_queue
    (tasks rest : list Task) (bad : Task) rq eq done (st st1 st2 : St)
    rq1 (e : Exception) (n : nat) :
  Forall (fun t => is_Shutdown t = false) tasks ->
  is_Shutdown bad = false ->
  serve tasks rq st = (Return rq1, st1) ->
  execute_task bad st1 = (Raise e, st2) ->
  (length tasks + 1 <= n)%nat ->
  run_events (repeat Iterate n)
    (mkProcess (tasks ++ bad :: rest) rq eq MainLoop done st)
  = mkProcess rest rq1 (eq ++ [Error]) (Failed e)
              (done ++ tasks ++ [bad]) st2.
Proof.
  intros Htasks Hbad Hserve Hraise Hn.
  replace n with (length tasks + (1 + (n - length tasks - 1)))%nat by lia.
  rewrite !repeat_app, !run_events_app.
  rewrite (main_loop_serves tasks _ Htasks _ _ _ _ _ _ Hserve).
  simpl repeat. simpl run_events at 2.
  rewrite (step_raises bad _ _ _ _ _ e st2 Hbad Hraise).
  rewrite stopped_stays by reflexivity.
  rewrite <- app_assoc. reflexivity.
Qed.

Lemma keeps_polling (evs : list Event) (p : Process St) :
  phase p = MainLoop ->
  error_queue p = [] ->
  Forall (fun t => is_Shutdown t = false /\
                   forall s, exists r s', execute_task t s = (Return r, s'))
         (task_queue p ++ enqueued_by evs) ->
  phase (run_events evs p) = MainLoop /\ error_queue (run_events evs p) = [].
Proof.
  revert p. induction evs as [|ev evs IH]; intros p Hph Herr Hall; simpl.
  - auto.
  - destruct ev as [task|]; simpl in *.
    + apply IH; [exact Hph | exact Herr|].
      destruct p as [q rq eq ph done st]. simpl in *.
      rewrite <- app_assoc. exact Hall.
    + destruct p as [q rq eq ph done st]. simpl in *. subst ph eq.
      destruct q as [|task q].
      * apply IH; [reflexivity | reflexivity | exact Hall].
      * simpl in Hall. inversion Hall as [|? ? [Hs Hret] Hrest]; subst.
        destruct (Hret st) as (r & st' & Hex).
        rewrite (step_returns task _ _ _ _ _ r st' Hs Hex).
        apply IH; [reflexivity | reflexivity | exact Hrest].
Qed.

(** X5.  The worker never stops by itself: as long as no [Shutdown] is
    put and the tasks put are ones [execute_task] completes, it stays
    in its polling loop and reports no error, however many times it
    finds the queue empty. *)
Theorem polling_ends_only_on_shutdown_or_failure (evs : list Event) (st : St) :
  Forall (fun t => is_Shutdown t = false /\
                   forall s, exists r s', execute_task t s = (Return r, s'))
         (enqueued_by evs) ->
  phase (run_events evs (fresh st)) = MainLoop /\
  error_queue (run_events evs (fresh st)) = [].
Proof.
  intros Hall. apply keeps_polling; [reflexivity | reflexivity | exact Hall].
Qed.

(** X22.  Once [Shutdown] has been taken nothing is executed any more:
    in the drain loop and after [run] has returned, whatever is put and
    however long the worker is given, the executed tasks, the result
    and error queues and the attributes of the object stay as they are.
    And a task put after [run] has returned is never taken off the
    queue. *)
Theorem nothing_executed_after_shutdown (evs : list Event) (p : Process St) :
  phase p = DrainLoop \/ phase p = Finished ->
  let p' := run_events evs p in
  executed p' = executed p /\
  result_queue p' = result_queue p /\
  error_queue p' = error_queue p /\
  attrs p' = attrs p /\
  (phase p' = DrainLoop \/ phase p' = Finished) /\
  (phase p = Finished -> task_queue p' = task_queue p ++ enqueued_by evs).
Proof.
  intros Hph p'. subst p'.
  assert (Hfrozen : executed (run_events evs p) = executed p /\
                    result_queue (run_events evs p) = result_queue p /\
                    error_queue (run_events evs p) = error_queue p /\
                    attrs (run_events evs p) = attrs p /\
                    (phase (run_events evs p) = DrainLoop \/
                     phase (run_events evs p) = Finished)).
  { revert p Hph. induction evs as [|ev evs IH]; intros p Hph; simpl.
    - repeat split; auto.
    - assert (Hnext : executed (occur ev p) = executed p /\
                      result_queue (occur ev p) = result_queue p /\
                      error_queue (occur ev p) = error_queue p /\
                      attrs (occur ev p) = attrs p /\
                      (phase (occur ev p) = DrainLoop \/
                       phase (occur ev p) = Finished)).
      { destruct p as [q rq eq ph done st]. simpl in Hph.
        destruct ev as [task|]; simpl; [repeat split; auto|].
        unfold step. simpl.
        destruct Hph as [-> | ->]; simpl; [|repeat split; auto].
        destruct q; simpl; repeat split; auto. }
      destruct Hnext as (He & Hr & Herr & Ha & Hp).
      destruct (IH _ Hp) as (He' & Hr' & Herr' & Ha' & Hp').
      repeat split; solve [congruence | exact Hp']. }
  destruct Hfrozen as (He & Hr & Herr & Ha & Hp).
  repeat split; try assumption.
  intros Hfin. rewrite (after_return evs p Hfin). reflexivity.
Qed.

End QueueFacts.

(** ** What recognition leaves alone *)

Section QuietFacts.
Context `{Externals}.

Lemma quiet_ret {A} (a : A) : quiet (ret a).
Proof.
  intros s r s' Heq. unfold ret in Heq. injection Heq as _ <-.
  repeat split; reflexivity.
Qed.

Lemma quiet_the_models : quiet the_models.
Proof.
  intros s r s' Heq. unfold the_models in Heq.
  destruct (models (self s)); injection Heq as _ <-; repeat split; reflexivity.
Qed.

Lemma quiet_get : quiet get.
Proof.
  intros s r s' Heq. unfold get in Heq. injection Heq as _ <-.
  repeat split; reflexivity.
Qed.

Lemma quiet_invoke {A} (c : Call) (o : Outcome A) : quiet (invoke c o).
Proof.
  intros s r s' Heq. unfold invoke in Heq. injection Heq as _ <-.
  simpl. repeat split; try reflexivity. apply prefix_app_r. reflexivity.
Qed.

Lemma quiet_bind {A B} (c : M Py A) (k : A -> M Py B) :
  quiet c -> (forall a, quiet (k a)) -> quiet (bind c k).
Proof.
  intros Hc Hk s r s' Heq. unfold bind in Heq.
  destruct (c s) as [[a|e] s1] eqn:Hcs.
  - destruct (Hc _ _ _ Hcs) as (Hs1 & Hf1 & Ht1 & Hp1).
    destruct (Hk a _ _ _ Heq) as (Hs2 & Hf2 & Ht2 & Hp2).
    repeat split; try congruence. etransitivity; eassumption.
  - injection Heq as _ <-. eapply Hc. exact Hcs.
Qed.

Lemma quiet_detect (rgb_image bgr_image : Image) :
  quiet (__detect_faces rgb_image bgr_image).
Proof.
  unfold __detect_faces.
  apply quiet_bind; [apply quiet_the_models | intros m].
  apply quiet_bind; [apply quiet_invoke | intros boxes].
  apply quiet_ret.
Qed.

Lemma quiet_crop (rgb_image : Image) (fs : list Face) :
  quiet (_crop rgb_image fs).
Proof.
  induction fs as [|face rest IH]; simpl; [apply quiet_ret|].
  apply quiet_bind; [apply quiet_the_models | intros m].
  apply quiet_bind; [apply quiet_invoke | intros marks].
  apply quiet_bind; [apply quiet_invoke | intros cropped].
  apply quiet_bind; [exact IH | intros rest'].
  apply quiet_ret.
Qed.

Lemma quiet_extract (fs : list Face) : quiet (_extract_features fs).
Proof.
  unfold _extract_features.
  apply quiet_bind; [apply quiet_the_models | intros m].
  apply quiet_bind; [apply quiet_invoke | intros feats].
  apply quiet_ret.
Qed.

Lemma quiet_find_matches (fs : list Face) : quiet (_find_matches fs).
Proof.
  induction fs as [|face rest IH]; simpl; [apply quiet_ret|].
  apply quiet_bind; [apply quiet_the_models | intros m].
  apply quiet_bind; [apply quiet_get | intros s0].
  apply quiet_bind; [apply quiet_invoke | intros found].
  apply quiet_bind; [exact IH | intros rest'].
  apply quiet_ret.
Qed.

Lemma quiet_recognize (bgr_image : Image) :
  quiet (dispatch (RecognizeFaces bgr_image)).
Proof.
  unfold dispatch.
  apply quiet_bind; [apply quiet_detect | intros fs].
  apply quiet_bind; [|intros fs'; apply quiet_ret].
  destruct (0 <? length fs)%nat; [|apply quiet_ret].
  apply quiet_bind; [apply quiet_crop | intros fs1].
  apply quiet_bind; [apply quiet_extract | intros fs2].
  apply quiet_find_matches.
Qed.

(** X6.  Recognising a frame is read-only: whether the task returns a
    result or raises at any stage, the gallery, the files and the clock
    are as before, the calls already logged are kept, and the model stack
    in use stays loaded. *)
Theorem recognition_is_read_only :
  forall (s : Py) (m : ModelStack) (bgr_image : Image),
    stack_in_use s = Return m ->
    let s' := snd (execute_task (RecognizeFaces bgr_image) s) in
    face_database (self s') = face_database (self s) /\
    models (self s') = Some m /\
    files (world s') = files (world s) /\
    ticks (world s') = ticks (world s) /\
    prefix (calls (world s)) (calls (world s')).
Proof.
  intros s m bgr_image Hm s'. subst s'.
  rewrite (execute_task_dispatch _ s m Hm).
  destruct (dispatch (RecognizeFaces bgr_image) (set_models m s))
    as [r s'] eqn:Hrun.
  destruct (quiet_recognize bgr_image _ _ _ Hrun) as (Hself & Hf & Ht & Hp).
  simpl. rewrite Hself. simpl. auto.
Qed.

(** X7.  The model stack is loaded once: whatever the task and its
    outcome, after a task executed with a stack at hand that very stack
    is the attribute [models], so no later task calls
    [init_model_stack] again. *)
Theorem models_stay_loaded :
  forall (s : Py) (m : ModelStack) (task : Task),
    stack_in_use s = Return m ->
    let s' := snd (execute_task task s) in
    models (self s') = Some m /\ stack_in_use s' = Return m.
Proof.
  intros s m task Hm s'. subst s'.
  assert (Hgoal : models (self (snd (execute_task task s))) = Some m).
  { rewrite (execute_task_dispatch _ s m Hm).
    destruct task as [bgr_image| |[[[fs|]]|]| | |tag]; try reflexivity.
    - destruct (dispatch (RecognizeFaces bgr_image) (set_models m s))
        as [r s'] eqn:Hrun.
      destruct (quiet_recognize bgr_image _ _ _ Hrun) as (Hself & _).
      simpl. rewrite Hself. reflexivity.
    - unfold dispatch, bind, on_database. simpl.
      rewrite add_all_spec. reflexivity.
    - unfold dispatch, bind, on_database, remove_most_recent. simpl.
      destruct (most_recent _). reflexivity. }
  split; [exact Hgoal|]. unfold stack_in_use. rewrite Hgoal. reflexivity.
Qed.

(** X8.  When the model stack cannot be loaded, every task fails, the
    tasks that need no model included: with no stack loaded and
    [init_model_stack] raising [e], [execute_task] raises [e] on any
    task and leaves the object and the world as they were. *)
Theorem no_models_no_task :
  forall (s : Py) (e : Exception) (task : Task),
    models (self s) = None ->
    init_model_stack = Raise e ->
    execute_task task s = (Raise e, s).
Proof.
  intros s e task Hnone Hinit.
  unfold execute_task, RecognitionProcess_worker,
    RecognitionProcess_execute_task, load_models, bind, get, lift.
  rewrite Hnone, Hinit. reflexivity.
Qed.

(** X9.  A task of a class the dispatcher does not know is fatal for
    the worker: [execute_task] raises [NotImplementedError] with the
    gallery and the world untouched, so the iteration that takes such a
    task puts one [Error], no result, and [run] re-raises. *)
Theorem unknown_task_stops_the_worker :
  forall (p : Process Py) (m : ModelStack) (task : Task) (rest : list Task),
    stack_in_use (attrs p) = Return m ->
    phase p = MainLoop ->
    task_queue p = task :: rest ->
    (exists tag, task = OtherTask tag) ->
    execute_task task (attrs p)
    = (Raise NotImplementedError, set_models m (attrs p)) /\
    step p = mkProcess rest (result_queue p) (error_queue p ++ [Error])
                       (Failed NotImplementedError)
                       (executed p ++ [task]) (set_models m (attrs p)).
Proof.
  intros [q rq eq ph done st] m task rest Hm Hph Hq (tag & ->).
  simpl in *. subst ph q.
  assert (Hex : execute_task (OtherTask tag) st
                = (Raise NotImplementedError, set_models m st))
    by (rewrite (execute_task_dispatch _ st m Hm); reflexivity).
  split; [exact Hex|].
  apply step_raises; [reflexivity | exact Hex].
Qed.


End QuietFacts.

(** ** A frame through the four stages *)

Section PipelineFacts.
Context `{Externals}.

Lemma log_calls_nil (s : Py) : log_calls [] s = s.
Proof.
  destruct s as [o [fl t cl]]. unfold log_calls. simpl.
  rewrite app_nil_r. reflexivity.
Qed.

Lemma log_call_after (c : Call) (cs : list Call) (s : Py) :
  log_call c (log_calls cs s) = log_calls (cs ++ [c]) s.
Proof. unfold log_call, log_calls. simpl. rewrite app_assoc. reflexivity. Qed.

Lemma log_calls_after (cs1 cs2 : list Call) (s : Py) :
  log_calls cs2 (log_calls cs1 s) = log_calls (cs1 ++ cs2) s.
Proof. unfold log_calls. simpl. rewrite app_assoc. reflexivity. Qed.

Lemma slice_to_prefix {A} (k : Z) (l : list A) :
  prefix (slice_to k l) l /\
  length (slice_to k l) = slice_to_length k (length l).
Proof.
  unfold slice_to, slice_to_length.
  destruct (k <? 0) eqn:Hk;
    (split; [apply prefix_take | rewrite length_take; lia]).
Qed.

Lemma crop_succeeds (m : ModelStack) (rgb_image : Image)
    (marks_of : BoundingBox -> Landmarks) (crop_of : BoundingBox -> Image)
    (fs : list Face) :
  Forall (fun box => find_landmarks m rgb_image box = Return (marks_of box) /\
                     crop m rgb_image (marks_of box) = Return (crop_of box))
         (map bounding_box fs) ->
  forall s,
    models (self s) = Some m ->
    _crop rgb_image fs s
    = (Return (map (fun face =>
                      mkFace (bounding_box face) (thumbnail face)
                             (Some (marks_of (bounding_box face)))
                             (Some (crop_of (bounding_box face)))
                             (face_features face) (matches face)) fs),
       log_calls (flat_map (align_calls marks_of) (map bounding_box fs)) s).
Proof.
  induction fs as [|face rest IH]; intros Hall s Hm; simpl.
  - rewrite log_calls_nil. reflexivity.
  - inversion Hall as [|? ? [Hmarks Hcrop] Hrest]; subst.
    unfold bind, the_models, invoke. rewrite Hm, Hmarks, Hcrop.
    rewrite (IH Hrest) by exact Hm.
    unfold ret. f_equal.
    change (log_call ?c s) with (log_call c s).
    rewrite <- (log_calls_nil s) at 1.
    rewrite !log_call_after, log_calls_after. reflexivity.
Qed.

Lemma assign_features_spec (fs : list Face) (feats : list Features) :
  length (assign_features fs feats) = length fs /\
  map face_features (assign_features fs feats)
  = map Some (take (length fs) feats)
    ++ map face_features (drop (length feats) fs) /\
  Forall2 (fun face face' =>
             bounding_box face' = bounding_box face /\
             thumbnail face' = thumbnail face /\
             landmarks face' = landmarks face /\
             face_crop face' = face_crop face /\
             matches face' = matches face)
          fs (assign_features fs feats).
Proof.
  revert feats. induction fs as [|face rest IH]; intros feats.
  - destruct feats; simpl; repeat split; constructor.
  - destruct feats as [|ft more]; simpl.
    + repeat split. apply Forall2_same_length_lookup_2; [reflexivity|].
      intros i x y Hx Hy. rewrite Hx in Hy. injection Hy as <-. auto.
    + destruct (IH more) as (Hlen & Hfeat & Hrest).
      rewrite Hlen, Hfeat. repeat split. constructor; [auto | exact Hrest].
Qed.

(** X11.  The feature stage makes one batched call and pairs its
    answer with the faces as [zip] does: the stage returns as many faces
    as it was given, the first faces get the returned embeddings in
    order, and when the capability returns fewer embeddings than there
    are faces the stage does not raise: the faces beyond the answer keep
    the features they had.  No other attribute of a face changes. *)
Theorem extract_features_pairs_in_order :
  forall (s : Py) (m : ModelStack) (fs : list Face) (feats : list Features),
    models (self s) = Some m ->
    extract_features m (map face_crop fs) = Return feats ->
    exists fs',
      _extract_features fs s
      = (Return fs', log_calls [CallExtract (map face_crop fs)] s) /\
      length fs' = length fs /\
      map face_features fs'
      = map Some (take (length fs) feats)
        ++ map face_features (drop (length feats) fs) /\
      Forall2 (fun face face' =>
                 bounding_box face' = bounding_box face /\
                 thumbnail face' = thumbnail face /\
                 landmarks face' = landmarks face /\
                 face_crop face' = face_crop face /\
                 matches face' = matches face)
              fs fs'.
Proof.
  intros s m fs feats Hm Hex.
  exists (assign_features fs feats). split.
  - unfold _extract_features, bind, the_models, invoke. rewrite Hm, Hex.
    reflexivity.
  - apply assign_features_spec.
Qed.

Lemma find_matches_succeeds (m : ModelStack)
    (found_of : option Features -> list Match) (fs : list Face) :
  forall s,
    models (self s) = Some m ->
    (forall probe,
       match_faces m probe (faces (face_database (self s)))
       = Return (found_of probe)) ->
    _find_matches fs s
    = (Return (map (fun face =>
                      mkFace (bounding_box face) (thumbnail face)
                             (landmarks face) (face_crop face)
                             (face_features face)
                             (Some (slice_to num_matches_debug
                                      (found_of (face_features face))))) fs),
       log_calls (map (fun face => CallMatch (face_features face)) fs) s).
Proof.
  induction fs as [|face rest IH]; intros s Hm Hfound; simpl.
  - rewrite log_calls_nil. reflexivity.
  - unfold bind, the_models, get, invoke. rewrite Hm, Hfound.
    rewrite IH by assumption.
    unfold ret. f_equal.
    rewrite <- (log_calls_nil s) at 1.
    rewrite log_call_after, log_calls_after. reflexivity.
Qed.

(** X12.  The matching stage cuts the answer of the matching
    capability as the slice [[:num_matches]] does, whatever the
    configured number: every face gets an initial part of the candidates
    returned for it, all of them when there are fewer than
    [num_matches], none for 0, and for a negative number all but the
    last [-num_matches]; the gallery is passed as it is and nothing but
    the call log changes. *)
Theorem find_matches_slices_the_answer :
  forall (s : Py) (m : ModelStack)
         (found_of : option Features -> list Match) (fs : list Face),
    models (self s) = Some m ->
    (forall probe,
       match_faces m probe (faces (face_database (self s)))
       = Return (found_of probe)) ->
    exists fs',
      _find_matches fs s
      = (Return fs',
         log_calls (map (fun face => CallMatch (face_features face)) fs) s) /\
      Forall2 (fun face face' =>
                 exists ms,
                   matches face' = Some ms /\
                   prefix ms (found_of (face_features face)) /\
                   length ms
                   = slice_to_length num_matches_debug
                       (length (found_of (face_features face))) /\
                   face_features face' = face_features face /\
                   bounding_box face' = bounding_box face)
              fs fs'.
Proof.
  intros s m found_of fs Hm Hfound.
  eexists. split; [apply (find_matches_succeeds m found_of); assumption|].
  clear Hm Hfound.
  induction fs as [|face rest IH]; simpl; constructor; [|exact IH].
  eexists. split; [reflexivity|]. simpl.
  destruct (slice_to_prefix num_matches_debug
              (found_of (face_features face))) as [Hp Hl].
  auto.
Qed.

Lemma recognized_faces (bgr_image : Image)
    (marks_of : BoundingBox -> Landmarks) (crop_of : BoundingBox -> Image)
    (found_of : option Features -> list Match)
    (boxes : list BoundingBox) (feats : list Features) :
  length feats = length boxes ->
  map (fun face =>
         mkFace (bounding_box face) (thumbnail face) (landmarks face)
                (face_crop face) (face_features face)
                (Some (slice_to num_matches_debug
                         (found_of (face_features face)))))
      (assign_features
         (map (fun face =>
                 mkFace (bounding_box face) (thumbnail face)
                        (Some (marks_of (bounding_box face)))
                        (Some (crop_of (bounding_box face)))
                        (face_features face) (matches face))
              (map (fun bt => mkFace (fst bt) (snd bt) None None None None)
                   (zip boxes
                        (map (fun box =>
                                pixels bgr_image (top box) (bottom box)
                                       (left box) (right box)) boxes))))
         feats)
  = map (fun bf => recognized bgr_image marks_of crop_of found_of
                              (fst bf) (snd bf))
        (zip boxes feats).
Proof.
  revert feats. induction boxes as [|box boxes IH]; intros [|ft feats] Hlen;
    simpl in *; try discriminate; [reflexivity|].
  rewrite IH by lia. reflexivity.
Qed.

Lemma detected_crops (bgr_image : Image)
    (marks_of : BoundingBox -> Landmarks) (crop_of : BoundingBox -> Image)
    (boxes : list BoundingBox) :
  map face_crop
      (map (fun face =>
              mkFace (bounding_box face) (thumbnail face)
                     (Some (marks_of (bounding_box face)))
                     (Some (crop_of (bounding_box face)))
                     (face_features face) (matches face))
           (map (fun bt => mkFace (fst bt) (snd bt) None None None None)
                (zip boxes
                     (map (fun box =>
                             pixels bgr_image (top box) (bottom box)
                                    (left box) (right box)) boxes))))
  = map (fun box => Some (crop_of box)) boxes.
Proof.
  induction boxes as [|box boxes IH]; simpl; [reflexivity|].
  rewrite IH. reflexivity.
Qed.

Lemma assigned_probes (fs : list Face) (feats : list Features) :
  length feats = length fs ->
  map (fun face => CallMatch (face_features face)) (assign_features fs feats)
  = map (fun ft => CallMatch (Some ft)) feats.
Proof.
  revert feats. induction fs as [|face rest IH]; intros [|ft feats] Hlen;
    simpl in *; try discriminate; [reflexivity|].
  rewrite IH by lia. reflexivity.
Qed.

(** X13.  A frame in which every stage succeeds: the detector is called
    once on the RGB image, then landmarks and crop are computed face by
    face in detection order, then all crops go to the feature capability
    in one call, then each face is matched against the gallery; the
    result lists one face per detected box, in detection order, carrying
    the thumbnail cut from the BGR image, its landmarks, crop and
    embedding and its match list cut to [num_matches]. *)
Theorem recognition_runs_the_four_stages :
  forall (s : Py) (m : ModelStack) (bgr_image : Image)
         (boxes : list BoundingBox) (feats : list Features)
         (marks_of : BoundingBox -> Landmarks)
         (crop_of : BoundingBox -> Image)
         (found_of : option Features -> list Match),
    let rgb_image := cvtColor_BGR2RGB bgr_image in
    stack_in_use s = Return m ->
    detect_faces m rgb_image = Return boxes ->
    boxes <> [] ->
    Forall (fun box =>
              find_landmarks m rgb_image box = Return (marks_of box) /\
              crop m rgb_image (marks_of box) = Return (crop_of box)) boxes ->
    extract_features m (map (fun box => Some (crop_of box)) boxes)
    = Return feats ->
    length feats = length boxes ->
    (forall probe,
       match_faces m probe (faces (face_database (self s)))
       = Return (found_of probe)) ->
    execute_task (RecognizeFaces bgr_image) s
    = (Return (Some (Recognition
         {| result_faces :=
              Some (map (fun bf => recognized bgr_image marks_of crop_of
                                              found_of (fst bf) (snd bf))
                        (zip boxes feats)) |})),
       log_calls (CallDetect rgb_image
                  :: flat_map (align_calls marks_of) boxes
                  ++ CallExtract (map (fun box => Some (crop_of box)) boxes)
                  :: map (fun ft => CallMatch (Some ft)) feats)
                 (set_models m s)).
Proof.
  intros s m bgr_image boxes feats marks_of crop_of found_of rgb_image
         Hm Hdetect Hne Halign Hextract Hlen Hmatch.
  rewrite (execute_task_dispatch _ s m Hm).
  unfold dispatch. fold rgb_image.
  unfold __detect_faces, bind at 1 2 3, the_models, invoke.
  simpl. rewrite Hdetect. unfold ret at 1.
  set (fs0 := map _ (zip boxes _)).
  assert (Hboxes : map bounding_box fs0 = boxes) by apply detected_boxes.
  assert (Hpos : (0 <? length fs0)%nat = true).
  { apply Nat.ltb_lt. rewrite <- (length_map bounding_box), Hboxes.
    destruct boxes; [congruence | simpl; lia]. }
  rewrite Hpos. unfold bind at 1 2.
  pose proof (crop_succeeds m rgb_image marks_of crop_of fs0) as Hcrop.
  rewrite Hboxes in Hcrop.
  match goal with |- context [_crop rgb_image fs0 ?s0] =>
    rewrite (Hcrop Halign s0 eq_refl)
  end.
  unfold _extract_features, bind, the_models, invoke. simpl.
  unfold fs0. rewrite !detected_crops, Hextract. unfold ret at 1. simpl.
  match goal with |- context [_find_matches ?fs1 ?s1] =>
    rewrite (find_matches_succeeds m found_of fs1 s1 eq_refl Hmatch)
  end.
  unfold ret. f_equal.
  - rewrite recognized_faces by exact Hlen. reflexivity.
  - rewrite assigned_probes
      by (rewrite length_map;
          rewrite <- (length_map bounding_box), detected_boxes; exact Hlen).
    unfold log_call, log_calls, set_models. simpl.
    rewrite <- !app_assoc. reflexivity.
Qed.

End PipelineFacts.

(** ** The gallery and its file *)

Section FileFacts.
Context `{Externals}.

(** X14.  Backing up twice is backing up once: a second [store] right
    after the first changes neither the gallery nor the files. *)
Theorem store_is_idempotent :
  forall (self : FaceDatabase) (w : World),
    store (fst (store self w)) (snd (store self w)) = store self w.
Proof.
  intros self w. unfold store. simpl.
  rewrite (slice_from_short (slice_from (-1000) (faces self)))
    by (rewrite slice_from_length; lia).
  rewrite insert_insert_eq. reflexivity.
Qed.

Lemma apply_op_path (op : GalleryOp) (g : FaceDatabase * World) :
  database_file (fst (apply_op op g)) = database_file (fst g).
Proof.
  destruct g as [db w]. destruct op; simpl; try reflexivity.
  unfold FaceDatabase_init.
  destruct (files w !! database_file db) as [content|]; [|reflexivity].
  destruct (pickle_loads content); reflexivity.
Qed.

Lemma apply_op_files (op : GalleryOp) (g : FaceDatabase * World) :
  pickle_roundtrip ->
  file_bounded (database_file (fst g)) (snd g) ->
  file_bounded (database_file (fst g)) (snd (apply_op op g)) /\
  forall other,
    other <> database_file (fst g) ->
    files (snd (apply_op op g)) !! other = files (snd g) !! other.
Proof.
  intros Hrt Hb. destruct g as [db w]. simpl in *.
  destruct op as [feats img| |]; simpl.
  - split; [exact Hb | reflexivity].
  - split.
    + intros content l Hlook Hload. simpl in Hlook.
      rewrite lookup_insert_eq in Hlook. injection Hlook as <-.
      rewrite Hrt in Hload. injection Hload as <-.
      rewrite slice_from_length. lia.
    + intros other Hne. apply lookup_insert_ne. congruence.
  - destruct (FaceDatabase_init (database_file db) w); simpl;
      (split; [exact Hb | reflexivity]).
Qed.

(** X15.  The file never holds more than 1000 entries and no other
    file is written: starting from a file that is absent or holds at
    most 1000 entries, after any sequence of additions, backups and
    restarts the gallery still points at the same path, the file at
    that path (when it can be read) holds at most 1000 entries, and
    every other path holds what it held. *)
Theorem persisted_gallery_is_bounded :
  pickle_roundtrip ->
  forall (ops : list GalleryOp) (g : FaceDatabase * World),
    file_bounded (database_file (fst g)) (snd g) ->
    let g' := apply_ops ops g in
    database_file (fst g') = database_file (fst g) /\
    file_bounded (database_file (fst g)) (snd g') /\
    forall other,
      other <> database_file (fst g) ->
      files (snd g') !! other = files (snd g) !! other.
Proof.
  intros Hrt ops. induction ops as [|op ops IH]; intros g Hb; simpl.
  - split; [reflexivity|]. split; [exact Hb | reflexivity].
  - destruct (apply_op_files op g Hrt Hb) as [Hb1 Hother1].
    pose proof (apply_op_path op g) as Hpath.
    rewrite <- Hpath in Hb1.
    destruct (IH (apply_op op g) Hb1) as (Hp & Hb2 & Hother2).
    rewrite Hpath in Hp, Hb2, Hother2.
    split; [exact Hp|]. split; [exact Hb2|].
    intros other Hne. rewrite (Hother2 other Hne). apply Hother1, Hne.
Qed.

(** X16.  Additions live in memory only: after any number of [add]s
    without a [store] the gallery has grown by that number, beyond 1000
    if need be, while the files are untouched, so a worker started on
    the same path loads exactly what it would have loaded before. *)
Theorem unsaved_additions_are_lost :
  forall (ops : list GalleryOp) (self : FaceDatabase) (w : World),
    forallb is_add ops = true ->
    let g' := apply_ops ops (self, w) in
    length (faces (fst g')) = (length (faces self) + length ops)%nat /\
    files (snd g') = files w /\
    FaceDatabase_init (database_file self) (snd g')
    = FaceDatabase_init (database_file self) w.
Proof.
  intros ops. induction ops as [|op ops IH]; intros self w Hadds.
  - simpl. split; [lia|]. split; reflexivity.
  - simpl in Hadds. apply andb_prop in Hadds as [Hop Hrest].
    destruct op as [feats img| |]; try discriminate.
    change (apply_ops (OpAdd feats img :: ops) (self, w))
      with (apply_ops ops (fst (add feats img self w),
                           snd (add feats img self w))).
    destruct (IH (fst (add feats img self w)) (snd (add feats img self w))
                 Hrest) as (Hlen & Hfiles & Hinit).
    change (database_file (fst (add feats img self w)))
      with (database_file self) in Hinit.
    cbv zeta. rewrite Hlen, Hfiles, Hinit.
    split; [simpl; rewrite length_app; simpl; lia|].
    split; reflexivity.
Qed.

(** X17.  The context manager when the block is never entered.  A
    gallery file that exists but cannot be unpickled makes the
    constructor raise, outside the [try]: the exception leaves
    [init_recognition] with no [Shutdown] put and the system as it was.
    When the constructor succeeds and [start] raises, the [finally]
    clause still puts its [Shutdown], and the block is not run. *)
Theorem block_never_entered :
  forall (start block : RecognitionProcess -> M System unit) (s : System)
         (e : Exception),
    (forall content,
       files (system_world s) !! database_location = Some content ->
       pickle_loads content = Raise e ->
       init_recognition start block s = (Raise e, s)) /\
    (forall recognition s0,
       RecognitionProcess_init (system_world s) = Return recognition ->
       start recognition s = (Raise e, s0) ->
       init_recognition start block s
       = (Raise e, mkSystem (work_queue s0 ++ [Shutdown]) (results_queue s0)
                            (errors_queue s0) (system_world s0))).
Proof.
  intros start block s e. split.
  - intros content Hlook Hload.
    unfold init_recognition, bind, RecognitionProcess_init, FaceDatabase_init.
    rewrite Hlook, Hload. reflexivity.
  - intros recognition s0 Hinit Hstart.
    unfold init_recognition, bind, try_finally.
    rewrite Hinit, Hstart. reflexivity.
Qed.

End FileFacts.

(** ** The camera *)

Section CameraFacts.
Context `{Camera}.

Lemma brighten_value (value x : Z) :
  0 <= value <= 255 -> 0 <= x <= 255 ->
  (let y := if 255 - value <? x then 255 else x in
   if y <=? 255 - value then (y + value) mod 256 else y)
  = Z.min 255 (x + value).
Proof.
  intros Hv Hx. cbv zeta.
  destruct (255 - value <? x) eqn:Habove.
  - apply Z.ltb_lt in Habove.
    destruct (255 <=? 255 - value) eqn:Hle; [apply Z.leb_le in Hle|]; lia.
  - apply Z.ltb_ge in Habove.
    replace (x <=? 255 - value) with true by (symmetry; apply Z.leb_le; lia).
    rewrite Z.mod_small by lia. lia.
Qed.

(** X18.  Brightening saturates and never wraps around: for a value
    between 0 and 255, [increase_brightness] replaces each entry [x] of
    the V channel by [min 255 (x + value)], although the addition is
    made in [uint8] arithmetic, and passes H and S on as they are. *)
Theorem increase_brightness_saturates :
  forall (img : Image) (value : Z) (h s v : list Z),
    0 <= value <= 255 ->
    split_hsv img = (h, s, v) ->
    Forall (fun x => 0 <= x <= 255) v ->
    increase_brightness img value
    = merge_hsv (h, s, map (fun x => Z.min 255 (x + value)) v).
Proof.
  intros img value h s v Hvalue Hsplit Hv.
  unfold increase_brightness. rewrite Hsplit. do 3 f_equal.
  unfold add_upto, set_above. rewrite map_map.
  apply map_ext_Forall. eapply Forall_impl; [exact Hv|].
  intros x Hx. apply (brighten_value value x Hvalue Hx).
Qed.




(** X20.  [open_stream] releases what it opened, once, on every exit of
    the block: for a source whose constructor returns a capture, the
    block runs on that capture and the capture is released after it
    whatever the outcome of the block, which is passed on.  A source
    name that is none of the three raises [NotImplementedError] before
    anything is opened; a constructor that raises leaves nothing to
    release; in both cases the block is not run. *)
Theorem open_stream_releases_once :
  forall {A} (source : string) (block : Capture -> M Streams A) (s : Streams),
    (forall c s1 r s2,
       capture_for source s = (Return c, s1) ->
       block c s1 = (r, s2) ->
       opened s1 = opened s ++ [c] /\
       open_stream source block s
       = (r, mkStreams (opened s2) (released s2 ++ [c]))) /\
    (forall e s1,
       capture_for source s = (Raise e, s1) ->
       s1 = s /\ open_stream source block s = (Raise e, s)) /\
    (source <> "camera_jetson" -> source <> "camera" ->
     source <> "prerecorded" ->
     open_stream source block s = (Raise NotImplementedError, s)).
Proof.
  intros A source block s.
  assert (Hacq : forall init c s1,
            acquire init s = (Return c, s1) -> opened s1 = opened s ++ [c]).
  { intros init c s1. unfold acquire. destruct init; intros Heq.
    - injection Heq as <- <-. reflexivity.
    - discriminate. }
  assert (Hacq' : forall init e s1,
            acquire init s = (Raise e, s1) -> s1 = s).
  { intros init e s1. unfold acquire. destruct init; intros Heq.
    - discriminate.
    - injection Heq as _ <-. reflexivity. }
  split; [|split].
  - intros c s1 r s2 Hcap Hblock. split.
    + unfold capture_for in Hcap.
      repeat (destruct (decide _) in Hcap); eauto. discriminate.
    + unfold open_stream, bind, try_finally. rewrite Hcap, Hblock.
      reflexivity.
  - intros e s1 Hcap.
    assert (s1 = s) as ->.
    { unfold capture_for in Hcap.
      repeat (destruct (decide _) in Hcap); eauto.
      unfold raise in Hcap. injection Hcap as _ <-. reflexivity. }
    split; [reflexivity|].
    unfold open_stream, bind. rewrite Hcap. reflexivity.
  - intros H1 H2 H3. unfold open_stream, bind, capture_for.
    repeat (destruct (decide _); [congruence|]). reflexivity.
Qed.

Lemma after_yield_counts (m m' : Monitor) :
  0 <= frame_counter m < 100 ->
  after_yield m = Some m' ->
  0 <= frame_counter m' < 100 /\
  frame_counter m' = (frame_counter m + 1) mod 100 /\
  Z.of_nat (length (reports m'))
  = Z.of_nat (length (reports m)) + (frame_counter m + 1) / 100.
Proof.
  intros Hc. unfold after_yield.
  destruct (frame_counter m + 1 =? 100) eqn:Hfull.
  - apply Z.eqb_eq in Hfull.
    destruct (_ =? 0); [discriminate|]. intros Heq. injection Heq as <-.
    simpl. rewrite Hfull, length_app. simpl.
    rewrite Z.mod_same, Z.div_same by lia. lia.
  - apply Z.eqb_neq in Hfull. intros Heq. injection Heq as <-. simpl.
    rewrite Z.mod_small, Z.div_small by lia. lia.
Qed.

Lemma monitor_frames_counts (n : nat) :
  forall (m m' : Monitor),
    0 <= frame_counter m < 100 ->
    monitor_frames n m = Some m' ->
    0 <= frame_counter m' < 100 /\
    100 * Z.of_nat (length (reports m')) + frame_counter m'
    = 100 * Z.of_nat (length (reports m)) + frame_counter m + Z.of_nat n.
Proof.
  induction n as [|n IH]; intros m m' Hc Hrun.
  - simpl in Hrun. injection Hrun as <-. split; [exact Hc | lia].
  - simpl in Hrun. destruct (after_yield m) as [m1|] eqn:Hstep;
      [|discriminate].
    destruct (after_yield_counts m m1 Hc Hstep) as (Hc1 & Hmod & Hrep).
    destruct (IH m1 m' Hc1 Hrun) as (Hc' & Hsum).
    split; [exact Hc'|]. rewrite Hsum, Hrep.
    pose proof (Z.div_mod (frame_counter m + 1) 100 ltac:(lia)) as Hdm.
    rewrite <- Hmod in Hdm. lia.
Qed.

(** X21.  [monitor_framerate] reports once every 100 frames: after [n]
    frames have been yielded and asked past without an exception, the
    frame counter is [n mod 100] and [n / 100] frame rates have been
    printed.  The only exception of its own is the [ZeroDivisionError]
    of a report: it is raised exactly at a hundredth frame when the
    time elapsed since the last report is zero modulo a day, the days
    of the [timedelta] being left out of the division. *)
Theorem framerate_reported_every_100_frames :
  (forall (n : nat) (m : Monitor),
     monitor_frames n monitor_start = Some m ->
     frame_counter m = Z.of_nat n mod 100 /\
     Z.of_nat (length (reports m)) = Z.of_nat n / 100) /\
  (forall (m : Monitor),
     after_yield m = None <->
     frame_counter m = 99 /\
     (camera_clock (readings m) - counter_start_time m) mod day = 0).
Proof.
  split.
  - intros n m Hrun.
    destruct (monitor_frames_counts n monitor_start m) as (Hc & Hsum);
      [simpl; lia | exact Hrun |].
    simpl in Hsum.
    assert (Heq : Z.of_nat n
                  = 100 * Z.of_nat (length (reports m)) + frame_counter m)
      by lia.
    split.
    + rewrite Heq, Z.add_comm, Z.mul_comm, Z.mod_add by lia.
      rewrite Z.mod_small; lia.
    + apply (Z.div_unique _ _ _ (frame_counter m)); lia.
  - intros m. unfold after_yield.
    destruct (frame_counter m + 1 =? 100) eqn:Hfull.
    + apply Z.eqb_eq in Hfull.
      destruct (_ =? 0) eqn:Hzero.
      * apply Z.eqb_eq in Hzero. split; [intros _; split; [lia | exact Hzero] | reflexivity].
      * apply Z.eqb_neq in Hzero. split; [discriminate | intros [_ Hz]; contradiction].
    + apply Z.eqb_neq in Hfull. split; [discriminate | intros [H99 _]; lia].
Qed.

End CameraFacts.

(** * The properties in the concrete world *)

Import Demo.

Lemma demo_pickle_roundtrip : pickle_roundtrip.
Proof.
  intros l. simpl. unfold loads, dumps. f_equal.
  induction l as [|[t f i] l IH]; simpl; [reflexivity|].
  f_equal. exact IH.
Qed.

Lemma demo_clock_monotone : clock_monotone.
Proof. intros i j Hij. simpl. lia. Qed.

(** The worker polls once, a registration is put and executed, then a
    backup, [Shutdown] and an unknown task are put: five iterations
    later [run] has returned, the registration and the backup were
    executed, the registration alone produced a result, the unknown task
    was dropped. *)
Lemma shutdown_after_two_tasks_witness :
  run_events ([Iterate; Put (RegisterFaces None); Iterate;
               Put BackupFaceDatabase; Put Shutdown; Put (OtherTask 7)]
              ++ repeat Iterate 5) (fresh py0)
  = mkProcess [] [RegistrationResult []] [] Finished
              [RegisterFaces None; BackupFaceDatabase]
              (snd (execute_task BackupFaceDatabase
                      (snd (execute_task (RegisterFaces None) py0)))).
Proof.
  refine (proj2 (@shutdown_after_two_tasks carriers Py
                   (@RecognitionProcess_worker carriers externals)
                   py0 _ _ (RegisterFaces None) BackupFaceDatabase
                   (OtherTask 7) _ _ eq_refl eq_refl eq_refl eq_refl
                   [Iterate; Put (RegisterFaces None); Iterate;
                    Put BackupFaceDatabase; Put Shutdown; Put (OtherTask 7)]
                   5 eq_refl _) _); [|lia].
  intros before after Heq.
  repeat (destruct before as [|? before]; simpl in Heq;
          [ first [discriminate Heq | vm_compute; discriminate]
          | injection Heq as <- Heq ]).
  destruct before; discriminate Heq.
Defined.

(** An unknown task at the head of the queue: one [Error], no result,
    and the registration behind it stays in the queue. *)
Lemma failing_task_is_fatal_witness :
  let p := mkProcess [OtherTask 3; RegisterFaces None] [] [] MainLoop [] py0 in
  error_queue (step p) = [Error] /\
  result_queue (step p) = [] /\
  forall evs,
    executed (run_events evs (step p)) = [OtherTask 3] /\
    task_queue (run_events evs (step p)) = [RegisterFaces None] ++ enqueued_by evs.
Proof.
  intros p.
  pose proof (failing_task_is_fatal p (OtherTask 3) [RegisterFaces None]
                NotImplementedError _ eq_refl eq_refl eq_refl eq_refl) as W.
  destruct W as (He & Hr & _ & _ & _ & _ & Hlater).
  split; [exact He|]. split; [exact Hr|].
  intros evs. destruct (Hlater evs) as (Hex & _ & _ & _ & Hq).
  split; [exact Hex | exact Hq].
Defined.

(** 501 registrations of two faces each, a backup, a reload: of the 1002
    entries inserted the new worker finds 1000. *)
Lemma store_keeps_newest_1000_witness :
  exists s' reloaded,
    execute_all (map register (repeat [face 1; face 2] 501)
                 ++ [BackupFaceDatabase]) py0 = (Return tt, s') /\
    RecognitionProcess_init (world s') = Return reloaded /\
    length (faces (face_database reloaded)) = 1000%nat.
Proof.
  destruct (proj2 (store_keeps_newest_1000 demo_pickle_roundtrip)
              py0 stack (repeat [face 1; face 2] 501) 2%nat
              eq_refl eq_refl eq_refl)
    as (s' & reloaded & Hrun & Hinit & Hlen & _).
  { simpl. repeat constructor. }
  exists s', reloaded. split; [exact Hrun|]. split; [exact Hinit|].
  exact Hlen.
Defined.

Lemma store_then_load_identity_witness :
  exists loaded,
    FaceDatabase_init database_location
      (snd (store (face_database (self py3)) world0)) = Return loaded /\
    faces loaded = [entry 0 5; entry 1 30; entry 2 12].
Proof.
  destruct (proj1 (store_then_load_identity demo_pickle_roundtrip)
              (face_database (self py3)) world0)
    as (loaded & Hload & Hfaces & _).
  { simpl. lia. }
  exists loaded. split; [exact Hload | exact Hfaces].
Defined.

Lemma register_faces_result_witness :
  (exists s',
     execute_task (RegisterFaces None) py0
     = (Return (Some (RegistrationResult [])), s') /\
     face_database (self s') = face_database (self py0) /\
     world s' = world py0) /\
  (exists registered s',
     execute_task (register [face 1; face 2]) py0
     = (Return (Some (RegistrationResult registered)), s') /\
     faces (face_database (self s')) = registered /\
     length registered = 2%nat).
Proof.
  destruct (@register_faces_result carriers externals py0 stack eq_refl) as [Hnone Hsome].
  split.
  - apply Hnone. left. reflexivity.
  - destruct (Hsome [face 1; face 2])
      as (registered & s' & Hrun & Hfaces & Hlen & _).
    exists registered, s'. split; [exact Hrun|].
    split; [exact Hfaces | exact Hlen].
Defined.

Lemma recognize_without_faces_witness :
  exists s',
    execute_task (RecognizeFaces 0) py0
    = (Return (Some (Recognition {| result_faces := Some [] |})), s') /\
    calls (world s') = [CallDetect 0].
Proof.
  destruct (@recognize_without_faces carriers externals py0 stack 0 eq_refl eq_refl)
    as (s' & Hrun & Hcalls & _).
  exists s'. split; [exact Hrun | exact Hcalls].
Defined.

Lemma find_matches_keeps_best_witness :
  exists fs' s',
    _find_matches [face 21] py3 = (Return fs', s') /\
    face_database (self s') = face_database (self py3) /\
    Forall (fun face' => exists ms, matches face' = Some ms /\
                                    length ms = 2%nat /\ descending ms) fs'.
Proof.
  destruct (@find_matches_keeps_best carriers externals distance py3 stack [face 21] eq_refl)
    as (fs' & s' & Hrun & Hdb & _ & Hall).
  { intros probe gallery. reflexivity. }
  { simpl. lia. }
  exists fs', s'. split; [exact Hrun|]. split; [exact Hdb|].
  clear Hrun. induction Hall as [|f f' l l' Hf _ IH]; constructor; [|exact IH].
  destruct Hf as (ms & _ & Hms & Hlen & Hdesc & _).
  exists ms. auto.
Defined.

Lemma landmark_failure_aborts_frame_witness :
  exists s',
    execute_task (RecognizeFaces 2) py3 = (Raise (ModelError 1), s') /\
    calls (world s')
    = [CallDetect 2; CallLandmarks (box 20); CallCrop 20;
       CallLandmarks (box 13)].
Proof.
  destruct (@landmark_failure_aborts_frame carriers externals py3 stack 2
              [box 20] (box 13) [box 40] (ModelError 1) eq_refl eq_refl)
    as (s' & made & Hrun & Hcalls & Hmade & _).
  { constructor; [|constructor]. exists 20, 22. split; reflexivity. }
  { reflexivity. }
  exists s'. split; [exact Hrun|].
  rewrite Hcalls, Hmade. reflexivity.
Defined.

Lemma gallery_timestamps_never_decrease_witness :
  chronological
    (faces (fst (apply_ops [OpAdd (Some 1) None; OpAdd None (Some 2);
                            OpStore; OpReload; OpAdd (Some 3) (Some 3)]
                   ({| database_file := database_location; faces := [] |},
                    world0)))).
Proof.
  apply (proj2 (proj2 (proj2 (gallery_timestamps_never_decrease
                                demo_clock_monotone demo_pickle_roundtrip)))).
  reflexivity.
Defined.

Lemma shutdown_put_on_every_exit_witness :
  init_recognition start_ok failing_block system0
  = (Raise (ModelError 7),
     mkSystem [RecognizeFaces 1; Shutdown] [] [] world0).
Proof.
  apply (@shutdown_put_on_every_exit carriers externals start_ok failing_block system0 system0
           (mkSystem [RecognizeFaces (H:=carriers) 1] [] [] world0)
           {| models := None; face_database := gallery0 |}
           (Raise (ModelError 7)) eq_refl eq_refl eq_refl).
Defined.

(** C8 as the spec states it fails.  The detector finds three faces in
    image 2; landmarks are found for the first and the third, not for
    the second.  The task raises instead of returning a result for its
    siblings. *)
Lemma landmark_failure_not_isolated :
  detect_faces stack (cvtColor_BGR2RGB 2) = Return [box 20; box 13; box 40] /\
  aligns stack (cvtColor_BGR2RGB 2) (box 20) /\
  aligns stack (cvtColor_BGR2RGB 2) (box 40) /\
  find_landmarks stack (cvtColor_BGR2RGB 2) (box 13) = Raise (ModelError 1) /\
  fst (execute_task (RecognizeFaces 2) py3) = Raise (ModelError 1) /\
  ~ failure_isolated 2 py3.
Proof.
  split; [reflexivity|].
  split; [exists 20, 22; split; reflexivity|].
  split; [exists 40, 42; split; reflexivity|].
  split; [reflexivity|]. split; [reflexivity|].
  intros (fs & s' & Hrun & _).
  apply (f_equal fst) in Hrun. vm_compute in Hrun. discriminate.
Qed.

(** * The further properties in the concrete worlds *)

(** Two registrations, an unknown task, a backup: the backup has been
    put in time but is never executed. *)
Lemma tasks_served_in_order_witness :
  prefix (executed (run_events
                      [Put (RegisterFaces None); Iterate; Put (OtherTask 1);
                       Put BackupFaceDatabase; Iterate; Iterate]
                      (fresh py0)))
         [RegisterFaces None; OtherTask 1; BackupFaceDatabase].
Proof.
  exact (proj1 (@tasks_served_in_order carriers Py
                  (@RecognitionProcess_worker carriers externals)
                  [Put (RegisterFaces None); Iterate; Put (OtherTask 1);
                   Put BackupFaceDatabase; Iterate; Iterate] py0)).
Defined.

Lemma one_error_at_most_witness :
  (length (result_queue (run_events
                           [Put (RegisterFaces None); Iterate;
                            Put (OtherTask 1); Iterate; Iterate]
                           (fresh py0)))
   + length (error_queue (run_events
                            [Put (RegisterFaces None); Iterate;
                             Put (OtherTask 1); Iterate; Iterate]
                            (fresh py0)))
   <= length (executed (run_events
                          [Put (RegisterFaces None); Iterate;
                           Put (OtherTask 1); Iterate; Iterate]
                          (fresh py0))))%nat.
Proof.
  exact (proj2 (@one_error_at_most carriers Py
                  (@RecognitionProcess_worker carriers externals)
                  [Put (RegisterFaces None); Iterate; Put (OtherTask 1);
                   Iterate; Iterate] py0)).
Defined.

(** A registration and a backup in front of [Shutdown], a frame and a
    second [Shutdown] behind it. *)
Lemma queue_served_until_shutdown_witness :
  run_events (repeat Iterate 6)
    (mkProcess [RegisterFaces None; BackupFaceDatabase; Shutdown;
                RecognizeFaces 1; Shutdown] [] [] MainLoop [] py0)
  = mkProcess [] [RegistrationResult []] [] Finished
              [RegisterFaces None; BackupFaceDatabase]
              (snd (execute_task BackupFaceDatabase
                      (snd (execute_task (RegisterFaces None) py0)))).
Proof.
  apply (@queue_served_until_shutdown carriers Py
           (@RecognitionProcess_worker carriers externals)
           [RegisterFaces None; BackupFaceDatabase]
           [RecognizeFaces (H:=carriers) 1; Shutdown] [] [] [] py0 _ _ 6%nat).
  - repeat constructor.
  - reflexivity.
  - simpl. lia.
Defined.

(** A registration, then a frame in which landmarks fail, then a
    backup that is never made. *)
Lemma first_failure_stops_the_queue_witness :
  run_events (repeat Iterate 5)
    (mkProcess [RegisterFaces None; RecognizeFaces 2; BackupFaceDatabase]
               [] [] MainLoop [] py0)
  = mkProcess [BackupFaceDatabase] [RegistrationResult []] [Error]
              (Failed (ModelError 1))
              [RegisterFaces None; RecognizeFaces 2]
              (snd (execute_task (RecognizeFaces 2)
                      (snd (execute_task (RegisterFaces None) py0)))).
Proof.
  eapply (@first_failure_stops_the_queue carriers Py
           (@RecognitionProcess_worker carriers externals)
           [RegisterFaces None] [BackupFaceDatabase]
           (RecognizeFaces (H:=carriers) 2)
           [] [] [] py0 _ _ _ (ModelError 1) 5%nat).
  - repeat constructor.
  - reflexivity.
  - reflexivity.
  - reflexivity.
  - simpl. lia.
Defined.

Lemma demo_register_none_returns :
  forall s : Py, exists r s',
    execute_task (RegisterFaces None) s = (Return r, s').
Proof.
  intros s.
  assert (Hm : exists m, stack_in_use s = Return m).
  { unfold stack_in_use. destruct (models (self s)); eexists; reflexivity. }
  destruct Hm as (m & Hm).
  rewrite (execute_task_dispatch _ s m Hm). do 2 eexists. reflexivity.
Qed.

Lemma polling_ends_only_on_shutdown_or_failure_witness :
  phase (run_events [Iterate; Put (RegisterFaces None); Iterate; Iterate;
                     Put (RegisterFaces None); Iterate]
                    (fresh py0)) = MainLoop.
Proof.
  apply (@polling_ends_only_on_shutdown_or_failure carriers Py
           (@RecognitionProcess_worker carriers externals)
           [Iterate; Put (RegisterFaces None); Iterate; Iterate;
            Put (RegisterFaces None); Iterate] py0).
  repeat constructor; apply demo_register_none_returns.
Defined.

(** [Shutdown] alone in the queue: the worker takes it, finds the queue
    empty and returns; the backup put afterwards stays in the queue. *)
Lemma nothing_executed_after_shutdown_witness :
  task_queue (run_events [Iterate; Put BackupFaceDatabase; Iterate; Iterate]
                (mkProcess [] [] [] Finished [] py0))
  = [BackupFaceDatabase] /\
  executed (run_events [Iterate; Put BackupFaceDatabase; Iterate; Iterate]
              (mkProcess [] [] [] Finished [] py0)) = [].
Proof.
  destruct (@nothing_executed_after_shutdown carriers Py
              (@RecognitionProcess_worker carriers externals)
              [Iterate; Put BackupFaceDatabase; Iterate; Iterate]
              (mkProcess [] [] [] Finished [] py0) (or_intror eq_refl))
    as (He & _ & _ & _ & _ & Hq).
  split; [exact (Hq eq_refl) | exact He].
Defined.

(** The frame whose second face has no landmarks: the task raises, and
    the gallery of three is as before. *)
Lemma recognition_is_read_only_witness :
  faces (face_database (self (snd (execute_task (RecognizeFaces 2) py3))))
  = [entry 0 5; entry 1 30; entry 2 12] /\
  ticks (world (snd (execute_task (RecognizeFaces 2) py3))) = 3%nat.
Proof.
  destruct (@recognition_is_read_only carriers externals py3 stack 2 eq_refl)
    as (Hdb & _ & _ & Ht & _).
  split; [rewrite Hdb; reflexivity | exact Ht].
Defined.

Lemma models_stay_loaded_witness :
  models (self (snd (execute_task (OtherTask 9) py0))) = Some stack.
Proof.
  exact (proj1 (@models_stay_loaded carriers externals py0 stack
                  (OtherTask 9) eq_refl)).
Defined.

Lemma no_models_no_task_witness :
  @execute_task carriers Py
    (@RecognitionProcess_worker carriers Faulty.externals)
    (RegisterFaces None) py0
  = (Raise (ModelError 2), py0).
Proof.
  apply (@no_models_no_task carriers Faulty.externals py0 (ModelError 2)
           (RegisterFaces None) eq_refl eq_refl).
Defined.

Lemma unknown_task_stops_the_worker_witness :
  step (mkProcess [OtherTask 4; BackupFaceDatabase] [] [] MainLoop [] py3)
  = mkProcess [BackupFaceDatabase] [] [Error] (Failed NotImplementedError)
              [OtherTask 4] (set_models stack py3).
Proof.
  apply (proj2 (@unknown_task_stops_the_worker carriers externals
                  (mkProcess [OtherTask 4; BackupFaceDatabase] [] []
                             MainLoop [] py3)
                  stack (OtherTask 4) [BackupFaceDatabase]
                  eq_refl eq_refl eq_refl (ex_intro _ 4%nat eq_refl))).
Defined.


(** Two faces, one embedding returned: the second face keeps the
    features it had. *)
Lemma extract_features_pairs_in_order_witness :
  exists fs',
    _extract_features [face 7; face 8]
      {| self := {| models := Some Faulty.short_stack;
                    face_database := gallery0 |};
         world := world0 |}
    = (Return fs',
       log_calls [CallExtract [Some 7; Some 8]]
         {| self := {| models := Some Faulty.short_stack;
                       face_database := gallery0 |};
            world := world0 |}) /\
    map face_features fs' = [Some 7; Some 8] /\
    length fs' = 2%nat.
Proof.
  destruct (@extract_features_pairs_in_order carriers
              {| self := {| models := Some Faulty.short_stack;
                            face_database := gallery0 |};
                 world := world0 |}
              Faulty.short_stack [face 7; face 8] [7] eq_refl eq_refl)
    as (fs' & Hrun & Hlen & Hfeat & _).
  exists fs'. split; [exact Hrun|]. split; [exact Hfeat | exact Hlen].
Defined.

Lemma find_matches_slices_the_answer_witness :
  exists fs',
    _find_matches [face 21] py3
    = (Return fs', log_calls [CallMatch (Some 21)] py3) /\
    Forall (fun face' => exists ms, matches face' = Some ms /\
                                    length ms = 2%nat) fs'.
Proof.
  destruct (@find_matches_slices_the_answer carriers externals py3 stack
              (fun probe => @ranked_matches carriers distance probe
                              [entry 0 5; entry 1 30; entry 2 12])
              [face 21] eq_refl (fun _ => eq_refl))
    as (fs' & Hrun & Hall).
  exists fs'. split; [exact Hrun|].
  clear Hrun. induction Hall as [|f f' l l' Hf _ IH]; constructor; [|exact IH].
  destruct Hf as (ms & Hms & _ & Hlen & _). exists ms.
  rewrite ranked_matches_length in Hlen.
  split; [exact Hms | exact Hlen].
Defined.

Lemma recognition_runs_the_four_stages_witness :
  calls (world (snd (execute_task (RecognizeFaces 1) py3)))
  = [CallDetect 1; CallLandmarks (box 20); CallCrop 20;
     CallExtract [Some 21]; CallMatch (Some 21)].
Proof.
  rewrite (@recognition_runs_the_four_stages carriers externals py3 stack 1
             [box 20] [21] (fun b => left b) (fun b => 1 + left b)
             (fun probe => @ranked_matches carriers distance probe
                             [entry 0 5; entry 1 30; entry 2 12])
             eq_refl eq_refl).
  - reflexivity.
  - discriminate.
  - repeat constructor.
  - reflexivity.
  - reflexivity.
  - intros probe. reflexivity.
Defined.

Lemma store_is_idempotent_witness :
  store (fst (store (face_database (self py3)) world0))
        (snd (store (face_database (self py3)) world0))
  = store (face_database (self py3)) world0.
Proof.
  exact (@store_is_idempotent carriers externals
           (face_database (self py3)) world0).
Defined.

Lemma persisted_gallery_is_bounded_witness :
  file_bounded database_location
    (snd (apply_ops [OpAdd (Some 1) None; OpStore; OpReload; OpStore]
                    (gallery0, world0))).
Proof.
  assert (Hb : file_bounded (database_file (fst (gallery0, world0)))
                            (snd (gallery0, world0)))
    by (intros content l Hlook; discriminate Hlook).
  exact (proj1 (proj2 (@persisted_gallery_is_bounded carriers externals
                         demo_pickle_roundtrip
                         [@OpAdd carriers (Some 1) None; OpStore; OpReload;
                          OpStore]
                         (gallery0, world0) Hb))).
Defined.

Lemma unsaved_additions_are_lost_witness :
  length (faces (fst (apply_ops [OpAdd (Some 1) None; OpAdd (Some 2) None]
                                (face_database (self py3), world0))))
  = 5%nat /\
  FaceDatabase_init database_location
    (snd (apply_ops [OpAdd (Some 1) None; OpAdd (Some 2) None]
                    (face_database (self py3), world0)))
  = Return gallery0.
Proof.
  destruct (@unsaved_additions_are_lost carriers externals
              [@OpAdd carriers (Some 1) None; @OpAdd carriers (Some 2) None]
              (face_database (self py3)) world0 eq_refl)
    as (Hlen & _ & Hinit).
  split; [exact Hlen | exact Hinit].
Defined.

(** An unreadable gallery file: no [Shutdown] is put.  A [start] that
    raises: one is. *)
Lemma block_never_entered_witness :
  @init_recognition carriers Faulty.externals Faulty.failing_start
    Faulty.idle_block Faulty.system_with_file
  = (Raise UnpicklingError, Faulty.system_with_file) /\
  init_recognition Faulty.failing_start Faulty.idle_block system0
  = (Raise (ModelError 3), mkSystem [Shutdown] [] [] world0).
Proof.
  split.
  - apply (proj1 (@block_never_entered carriers Faulty.externals
                    Faulty.failing_start Faulty.idle_block
                    Faulty.system_with_file UnpicklingError) []);
      reflexivity.
  - apply (proj2 (@block_never_entered carriers externals
                    Faulty.failing_start Faulty.idle_block
                    system0 (ModelError 3))
             {| models := None; face_database := gallery0 |} system0);
      reflexivity.
Defined.

Import Studio.

(** Brightening image 100 by 30: the V channel 100, 250 becomes 130,
    255. *)
Lemma increase_brightness_saturates_witness :
  increase_brightness 100 30 = 130 + 255.
Proof.
  rewrite (@increase_brightness_saturates carriers camera 100 30
             [1] [2] [100; 250]).
  - reflexivity.
  - lia.
  - reflexivity.
  - repeat constructor; lia.
Defined.


(** The block fails; the capture is released all the same. *)
Lemma open_stream_releases_once_witness :
  open_stream "camera" failing_reader no_streams
  = (Raise (ModelError 5), @mkStreams carriers camera [2%nat] [2%nat]).
Proof.
  apply (proj2 (proj1 (@open_stream_releases_once carriers camera unit
                         "camera" failing_reader no_streams)
                  2%nat (@mkStreams carriers camera [2%nat] []) (Raise (ModelError 5))
                  (@mkStreams carriers camera [2%nat] []) eq_refl eq_refl)).
Defined.

Lemma framerate_reported_every_100_frames_witness :
  exists m,
    monitor_frames 250 monitor_start = Some m /\
    frame_counter m = 50 /\ length (reports m) = 2%nat.
Proof.
  destruct (monitor_frames 250 monitor_start) as [m|] eqn:Hrun;
    [|vm_compute in Hrun; discriminate].
  destruct (proj1 (@framerate_reported_every_100_frames carriers camera)
              250%nat m Hrun) as [Hc Hr].
  exists m. split; [reflexivity|]. split; [exact Hc|].
  apply Nat2Z.inj. rewrite Hr. reflexivity.
Defined.
